(** * Classical ciphers of [crypto.py]: a shallow embedding and its properties

    The program is a command-line tool with four ciphers (rotation,
    substitution, numeric value, Atbash) and an argument validator that
    dispatches to them.  Each Python function is embedded below under its
    own name; nested helper functions ([rot_logic] inside [rot], ...) are
    lifted to the top level.

    Conventions of the embedding
    - a Python [str] is a [string]; a character is an [ascii], read as the
      code point of the same number, so texts and keys range over the code
      points 0..255.  [str.lower], [str.isspace], [str.isdigit] and
      [str.strip] are exact on them; so is [str.upper], except that the
      capitals of the two characters 181 and 255 are not code points of
      0..255 (see [Py.upper_char]);
    - a Python [int] is a [Z];
    - a Python exception is a constructor of [PyError], and a function that
      may raise returns a [result];
    - [print] appends one entry to the list of printed lines, which a cipher
      function returns when it ends normally;
    - [random.randint] reads an entropy source [nat -> Z]. *)

From Stdlib Require Import ZArith List String Ascii Bool Lia Permutation.
From Stdlib Require Import Decimal DecimalString DecimalZ DecimalPos.
Import ListNotations.

#[local] Open Scope string_scope.
#[local] Open Scope Z_scope.

(** ** Exceptions *)

Inductive PyError : Type :=
| IndexError
| ValueError
| TypeError
| AttributeError
| KeyError
| OSError
| UnicodeDecodeError
| UsageError (msg : string).   (* parser.error: message on stderr, exit *)

Inductive result (A : Type) : Type :=
| Ok (a : A)
| Raise (e : PyError).

Arguments Ok {A} a.
Arguments Raise {A} e.

Definition bind {A B : Type} (m : result A) (k : A -> result B) : result B :=
  match m with
  | Ok a => k a
  | Raise e => Raise e
  end.

Notation "x <- m ;; k" := (bind m (fun x => k))
  (at level 61, m at next level, right associativity).

(** ** Python values (the arguments of the cipher functions are untyped) *)

Inductive value : Type :=
| VNone
| VInt (z : Z)
| VStr (s : string).

Definition as_int (v : value) : result Z :=
  match v with
  | VInt z => Ok z
  | _ => Raise TypeError
  end.

(** ** Primitives of [str] *)

Module Py.

(** [c in s] for a one-character [c]. *)
Fixpoint str_in (c : ascii) (s : string) : bool :=
  match s with
  | EmptyString => false
  | String a s' => Ascii.eqb c a || str_in c s'
  end.

(** [s.index(c)]: position of the first occurrence, [ValueError] if none. *)
Fixpoint str_index (s : string) (c : ascii) : result Z :=
  match s with
  | EmptyString => Raise ValueError
  | String a s' =>
      if Ascii.eqb c a then Ok 0
      else i <- str_index s' c ;; Ok (i + 1)
  end.

(** [s[i]]: a negative index counts from the end, [IndexError] out of
    range. *)
Definition getitem (s : string) (i : Z) : result ascii :=
  let n := Z.of_nat (String.length s) in
  let j := if i <? 0 then i + n else i in
  if (0 <=? j) && (j <? n) then
    match String.get (Z.to_nat j) s with
    | Some c => Ok c
    | None => Raise IndexError
    end
  else Raise IndexError.

Definition code (c : ascii) : Z := Z.of_nat (nat_of_ascii c).

(** The capital of a character that has a one-character capital: [a-z]
    and the Latin-1 small letters 224..254 (247, the division sign, is not a
    letter) lie 32 above their capitals.  The capitals of 181 (micro sign)
    and 255 (y with diaeresis) are U+039C and U+0178, outside 0..255: the
    character itself stands for them.  Like its capital it is one character
    that is not among [A-Z], [a-z], the spaces and the digits, and
    [str.upper] yields neither 181 nor 255 for any character, so the tests of
    the program on the code points 0..255 ([in letters], [in key_lower]
    before [in key_upper], [== " "]) come out as with the capital; only a
    printed capital of 181 or 255 is shown as the small letter. *)
Definition upper_char (c : ascii) : ascii :=
  let n := code c in
  if ((97 <=? n) && (n <=? 122))
     || ((224 <=? n) && (n <=? 254) && negb (n =? 247))
  then ascii_of_nat (nat_of_ascii c - 32) else c.

(** [c.lower()]: [A-Z] and the Latin-1 capitals 192..222 (215, the
    multiplication sign, is not a letter) lie 32 below their small
    letters. *)
Definition lower_char (c : ascii) : ascii :=
  let n := code c in
  if ((65 <=? n) && (n <=? 90))
     || ((192 <=? n) && (n <=? 222) && negb (n =? 215))
  then ascii_of_nat (nat_of_ascii c + 32) else c.

(** [c.upper()] as a string: the sharp s (223) becomes "SS". *)
Definition upper_chars (c : ascii) : string :=
  if code c =? 223 then String "S" (String "S" EmptyString)
  else String (upper_char c) EmptyString.

Fixpoint str_map (f : ascii -> ascii) (s : string) : string :=
  match s with
  | EmptyString => EmptyString
  | String a s' => String (f a) (str_map f s')
  end.

(** [s.upper()]: character by character, and not always of the length of
    [s]. *)
Fixpoint upper (s : string) : string :=
  match s with
  | EmptyString => EmptyString
  | String a s' => upper_chars a ++ upper s'
  end.

(** [s.lower()] *)
Definition lower (s : string) : string := str_map lower_char s.

(** [c.isspace()] on code points 0..255. *)
Definition isspace (c : ascii) : bool :=
  let n := code c in
  ((9 <=? n) && (n <=? 13)) || ((28 <=? n) && (n <=? 32))
  || (n =? 133) || (n =? 160).

(** Decimal digits [0-9], the digits [int()] reads. *)
Definition isdecimal_char (c : ascii) : bool :=
  (48 <=? code c) && (code c <=? 57).

(** [c.isdigit()] on code points 0..255: the decimal digits and the
    superscripts two, three and one. *)
Definition isdigit_char (c : ascii) : bool :=
  isdecimal_char c || (code c =? 178) || (code c =? 179) || (code c =? 185).

Fixpoint str_forallb (p : ascii -> bool) (s : string) : bool :=
  match s with
  | EmptyString => true
  | String a s' => p a && str_forallb p s'
  end.

(** [s.isdigit()]: every character is a digit and there is at least one. *)
Definition isdigit (s : string) : bool :=
  match s with
  | EmptyString => false
  | _ => str_forallb isdigit_char s
  end.

Fixpoint lstrip (s : string) : string :=
  match s with
  | EmptyString => EmptyString
  | String a s' => if isspace a then lstrip s' else s
  end.

Fixpoint rstrip (s : string) : string :=
  match s with
  | EmptyString => EmptyString
  | String a s' =>
      match rstrip s' with
      | EmptyString => if isspace a then EmptyString else String a EmptyString
      | r => String a r
      end
  end.

(** [s.strip()] *)
Definition strip (s : string) : string := rstrip (lstrip s).

(** [s.split()]: the maximal runs of characters that are not whitespace;
    [cur] is the run being read. *)
Fixpoint split_from (s cur : string) : list string :=
  match s with
  | EmptyString => match cur with EmptyString => [] | _ => [cur] end
  | String a s' =>
      if isspace a then
        match cur with
        | EmptyString => split_from s' EmptyString
        | _ => cur :: split_from s' EmptyString
        end
      else split_from s' (cur ++ String a EmptyString)
  end.

Definition split (s : string) : list string := split_from s EmptyString.

(** [str(n)] *)
Definition str (n : Z) : string := NilEmpty.string_of_int (Z.to_int n).

(** The digits of an integer literal as [int()] reads them: decimal digits,
    with single underscores allowed between two digits.  [prev] tells
    whether the previous character was a digit. *)
Fixpoint literal_digits (s : string) (prev : bool) : option string :=
  match s with
  | EmptyString => if prev then Some EmptyString else None
  | String a s' =>
      if isdecimal_char a then
        option_map (String a) (literal_digits s' true)
      else if Ascii.eqb a "_" && prev then literal_digits s' false
      else None
  end.

Definition int_of_digits (s : string) : result Z :=
  match literal_digits s false with
  | Some ds =>
      match NilEmpty.uint_of_string ds with
      | Some u => Ok (Z.of_uint u)
      | None => Raise ValueError
      end
  | None => Raise ValueError
  end.

(** [int(s)] in base 10: surrounding whitespace is dropped, one sign is
    allowed, [ValueError] for anything else.  The interpreter's configurable
    cap on the number of digits is not part of the model. *)
Definition int (s : string) : result Z :=
  match strip s with
  | String "-" s' => n <- int_of_digits s' ;; Ok (- n)
  | String "+" s' => int_of_digits s'
  | s' => int_of_digits s'
  end.

End Py.

(** ** [random.randint] *)

(** [random.randint(a, b)] returns some integer of [a..b]; [e] is the
    entropy consumed by the call, and every integer of the range is the
    outcome for some [e].  An empty range raises [ValueError]. *)
Definition randint (a b : Z) (e : Z) : result Z :=
  if b <? a then Raise ValueError else Ok (a + e mod (b - a + 1)).

(** ** Coercions that Python performs at run time *)

(** [for char in text]: only a [str] can be iterated here. *)
Definition iter_str (text : value) : result string :=
  match text with
  | VStr s => Ok s
  | _ => Raise TypeError
  end.

(** [v.upper()], [v.lower()], [v.split()]: methods of [str] only. *)
Definition str_method (v : value) : result string :=
  match v with
  | VStr s => Ok s
  | _ => Raise AttributeError
  end.

Fixpoint mapM {A B : Type} (f : A -> result B) (l : list A) : result (list B) :=
  match l with
  | [] => Ok []
  | a :: l' => b <- f a ;; bs <- mapM f l' ;; Ok (b :: bs)
  end.

(** [string.ascii_lowercase], [string.ascii_uppercase] *)
Definition letters_lower : string := "abcdefghijklmnopqrstuvwxyz".
Definition letters_upper : string := "ABCDEFGHIJKLMNOPQRSTUVWXYZ".

(** [final_text += c] *)
Definition push (final_text : string) (c : ascii) : string :=
  final_text ++ String c EmptyString.

(** ** Rotation cipher *)

(** The body of [for char in text] in [rot_logic], with the text still to
    read and the [final_text] built so far. *)
Fixpoint rot_logic_loop (text : string) (key : value) (final_text : string)
  : result string :=
  match text with
  | EmptyString => Ok final_text
  | String char rest =>
      if Py.str_in char letters_lower then
        i <- Py.str_index letters_lower char ;;
        k <- as_int key ;;
        c <- Py.getitem letters_lower ((i + k) mod 26) ;;
        rot_logic_loop rest key (push final_text c)
      else if Py.str_in char letters_upper then
        i <- Py.str_index letters_upper char ;;
        k <- as_int key ;;
        c <- Py.getitem letters_upper ((i + k) mod 26) ;;
        rot_logic_loop rest key (push final_text c)
      else rot_logic_loop rest key (push final_text char)
  end.

Definition rot_logic (text key : value) : result string :=
  s <- iter_str text ;;
  rot_logic_loop s key EmptyString.

(** [for i in range(26): print("ROT " + str(i) + ": " + rot_logic(text, i))]
    with [n] iterations left, the next value [i] and the lines printed so
    far. *)
Fixpoint rot_bruteforce_loop (text : value) (n : nat) (i : Z)
  (out : list string) : result (list string) :=
  match n with
  | O => Ok out
  | S n' =>
      r <- rot_logic text (VInt i) ;;
      rot_bruteforce_loop text n' (i + 1)
        (out ++ [("ROT " ++ Py.str i ++ ": " ++ r)%string])%list
  end.

Definition rot_info : string :=
  "Rot info: Each letter of the string is moved in the alphabet <key> times ahead. For example, with a key of 1 a would become b, b would be c, ... A common key is 13 (ROT13) where each letter is moved 13 times.".

Definition rot (rnd : nat -> Z) (text key : value) (operation : string)
  : result (list string) :=
  if String.eqb operation "encrypt" then
    r <- rot_logic text key ;; Ok [r]
  else if String.eqb operation "decrypt" then
    k <- as_int key ;;
    r <- rot_logic text (VInt (0 - k)) ;; Ok [r]
  else if String.eqb operation "bruteforce" then
    rot_bruteforce_loop text 26 0 []
  else if String.eqb operation "generate" then
    r <- randint 1 26 (rnd O) ;; Ok [Py.str r]
  else if String.eqb operation "info" then Ok [rot_info]
  else Ok [].

(** ** Substitution cipher *)

Fixpoint subst_enc_loop (text key_lower key_upper final_text : string)
  : result string :=
  match text with
  | EmptyString => Ok final_text
  | String char rest =>
      if Py.str_in char letters_lower then
        i <- Py.str_index letters_lower char ;;
        c <- Py.getitem key_lower i ;;
        subst_enc_loop rest key_lower key_upper (push final_text c)
      else if Py.str_in char letters_upper then
        i <- Py.str_index letters_upper char ;;
        c <- Py.getitem key_upper i ;;
        subst_enc_loop rest key_lower key_upper (push final_text c)
      else subst_enc_loop rest key_lower key_upper (push final_text char)
  end.

Definition subst_logic_enc (text key : value) : result string :=
  k <- str_method key ;;
  let key_lower := Py.lower k in
  let key_upper := Py.upper k in
  s <- iter_str text ;;
  subst_enc_loop s key_lower key_upper EmptyString.

Fixpoint subst_dec_loop (text key_lower key_upper final_text : string)
  : result string :=
  match text with
  | EmptyString => Ok final_text
  | String char rest =>
      if Py.str_in char key_lower then
        i <- Py.str_index key_lower char ;;
        c <- Py.getitem letters_lower i ;;
        subst_dec_loop rest key_lower key_upper (push final_text c)
      else if Py.str_in char key_upper then
        i <- Py.str_index key_upper char ;;
        c <- Py.getitem letters_upper i ;;
        subst_dec_loop rest key_lower key_upper (push final_text c)
      else subst_dec_loop rest key_lower key_upper (push final_text char)
  end.

Definition subst_logic_dec (text key : value) : result string :=
  k <- str_method key ;;
  let key_lower := Py.lower k in
  let key_upper := Py.upper k in
  s <- iter_str text ;;
  subst_dec_loop s key_lower key_upper EmptyString.

(** [letters[i]] and [letters.pop(i)] on a Python list: a negative index
    counts from the end, [IndexError] out of range. *)
Definition list_position {A : Type} (l : list A) (i : Z) : result nat :=
  let n := Z.of_nat (List.length l) in
  let j := if i <? 0 then i + n else i in
  if (0 <=? j) && (j <? n) then Ok (Z.to_nat j) else Raise IndexError.

Definition list_getitem {A : Type} (l : list A) (i : Z) : result A :=
  j <- list_position l i ;;
  match nth_error l j with
  | Some a => Ok a
  | None => Raise IndexError
  end.

Definition list_pop {A : Type} (l : list A) (i : Z) : result (list A) :=
  j <- list_position l i ;;
  Ok (firstn j l ++ skipn (S j) l)%list.

(** [for i in range(26)] of [subst_logic_gen]: [n] iterations left, the
    number [drawn] of random draws made so far, the pool [letters] and the
    [final_text] built so far. *)
Fixpoint subst_gen_loop (rnd : nat -> Z) (n drawn : nat)
  (letters : list ascii) (final_text : string) : result string :=
  match n with
  | O => Ok final_text
  | S n' =>
      r <- randint 0 (Z.of_nat (List.length letters) - 1) (rnd drawn) ;;
      c <- list_getitem letters r ;;
      letters' <- list_pop letters r ;;
      subst_gen_loop rnd n' (S drawn) letters' (push final_text c)
  end.

Definition subst_logic_gen (rnd : nat -> Z) : result string :=
  subst_gen_loop rnd 26 O (list_ascii_of_string letters_upper) EmptyString.

Definition subst_info : string :=
  "Substitution cipher uses a custom alphabet (key), and each letter from the regular alphabet (a, b, c, ...) becomes the letter in the same position in the key.".

Definition subst (rnd : nat -> Z) (text key : value) (operation : string)
  : result (list string) :=
  if String.eqb operation "encrypt" then
    r <- subst_logic_enc text key ;; Ok [r]
  else if String.eqb operation "decrypt" then
    r <- subst_logic_dec text key ;; Ok [r]
  else if String.eqb operation "generate" then
    r <- subst_logic_gen rnd ;; Ok [r]
  else if String.eqb operation "info" then Ok [subst_info]
  else Ok [].

(** ** Numeric-value cipher *)

Fixpoint numval_enc_loop (text final_text : string) : result string :=
  match text with
  | EmptyString => Ok final_text
  | String char rest =>
      if Py.str_in char letters_upper then
        i <- Py.str_index letters_upper char ;;
        numval_enc_loop rest (final_text ++ (Py.str (i + 1) ++ " "))
      else if Ascii.eqb char " " then numval_enc_loop rest (final_text ++ "0 ")
      else numval_enc_loop rest final_text
  end.

Definition numval_logic_enc (text : value) : result string :=
  s <- str_method text ;;
  numval_enc_loop (Py.upper s) EmptyString.

Fixpoint numval_dec_loop (tokens : list Z) (final_text : string)
  : result string :=
  match tokens with
  | [] => Ok final_text
  | char :: rest =>
      if negb (char =? 0) then
        c <- Py.getitem letters_upper (char - 1) ;;
        numval_dec_loop rest (push final_text c)
      else numval_dec_loop rest (final_text ++ " ")
  end.

Definition numval_logic_dec (text : value) : result string :=
  s <- str_method text ;;
  tokens <- mapM Py.int (Py.split s) ;;
  numval_dec_loop tokens EmptyString.

Definition numval_info : string :=
  "Numeric Value changes each letter for it's index in the alphabet.".

Definition numval (text : value) (operation : string) : result (list string) :=
  if String.eqb operation "encrypt" then
    r <- numval_logic_enc text ;; Ok [r]
  else if String.eqb operation "decrypt" then
    r <- numval_logic_dec text ;; Ok [r]
  else if String.eqb operation "info" then Ok [numval_info]
  else Ok [].

(** ** Atbash cipher *)

Fixpoint atbash_logic_loop (text final_text : string) : result string :=
  match text with
  | EmptyString => Ok final_text
  | String char rest =>
      if Py.str_in char letters_lower then
        i <- Py.str_index letters_lower char ;;
        c <- Py.getitem letters_lower (25 - i) ;;
        atbash_logic_loop rest (push final_text c)
      else if Py.str_in char letters_upper then
        i <- Py.str_index letters_upper char ;;
        c <- Py.getitem letters_upper (25 - i) ;;
        atbash_logic_loop rest (push final_text c)
      else atbash_logic_loop rest (push final_text char)
  end.

Definition atbash_logic (text : value) : result string :=
  s <- iter_str text ;;
  atbash_logic_loop s EmptyString.

Definition atbash_info : string :=
  "Atbash cipher reverses the order of the letters in the alphabet.".

Definition atbash (text : value) (operation : string) : result (list string) :=
  if String.eqb operation "encrypt" || String.eqb operation "decrypt" then
    r <- atbash_logic text ;; Ok [r]
  else if String.eqb operation "info" then Ok [atbash_info]
  else Ok [].

(** ** Argument parser *)

(** What [parser.parse_args()] returns: the four cipher flags, the five
    operation flags and the two optional inputs, under the names given by
    [dest]. *)
Record Namespace : Type := {
  arg_rot : bool;
  arg_subst : bool;
  arg_numval : bool;
  arg_atbash : bool;
  arg_encrypt : bool;
  arg_decrypt : bool;
  arg_bruteforce : bool;
  arg_generate : bool;
  arg_info : bool;
  arg_text : option string;
  arg_key : option string
}.

Definition count_true (l : list bool) : nat := List.length (filter (fun b => b) l).

(** The two groups declared [add_mutually_exclusive_group(required=True)]:
    [parse_args] itself ends with a usage error when two flags of a group
    are given, or none.  The text of the first message names the two flags
    in their order on the command line, which a namespace does not record;
    only its fixed part is kept. *)
Definition parse_args (args : Namespace) : result Namespace :=
  let ciphers := [arg_rot args; arg_subst args; arg_numval args; arg_atbash args] in
  let operations := [arg_encrypt args; arg_decrypt args; arg_bruteforce args;
                     arg_generate args; arg_info args] in
  if (1 <? count_true ciphers)%nat || (1 <? count_true operations)%nat then
    Raise (UsageError "not allowed with argument")
  else if (count_true ciphers =? 0)%nat then
    Raise (UsageError "one of the arguments --rot --subst --numval --atbash is required")
  else if (count_true operations =? 0)%nat then
    Raise (UsageError "one of the arguments -e/--encrypt -d/--decrypt -b/--bruteforce -g/--generate -i/--info is required")
  else Ok args.

Definition is_some {A : Type} (o : option A) : bool :=
  match o with Some _ => true | None => false end.

(** Truth value of an optional [str]: [None] and the empty string are
    false. *)
Definition truthy (o : option string) : bool :=
  match o with
  | Some (String _ _) => true
  | _ => false
  end.

(** [vars(args).items()], each value reduced to its truth value (the only
    use the program makes of it). *)
Definition vars (args : Namespace) : list (string * bool) :=
  [("rot", arg_rot args); ("subst", arg_subst args);
   ("numval", arg_numval args); ("atbash", arg_atbash args);
   ("encrypt", arg_encrypt args); ("decrypt", arg_decrypt args);
   ("bruteforce", arg_bruteforce args); ("generate", arg_generate args);
   ("info", arg_info args);
   ("text", truthy (arg_text args)); ("key", truthy (arg_key args))].

(** [name in [...]] for a list of strings *)
Definition str_in_list (name : string) (l : list string) : bool :=
  existsb (String.eqb name) l.

Fixpoint select_cipher (items : list (string * bool)) (SELECTED_CIPHER : option string)
  : option string :=
  match items with
  | [] => SELECTED_CIPHER
  | (name, value) :: rest =>
      if str_in_list name
           ["encrypt"; "decrypt"; "bruteforce"; "generate"; "info"; "text"; "key"]
      then select_cipher rest SELECTED_CIPHER
      else if value then select_cipher rest (Some name)
      else select_cipher rest SELECTED_CIPHER
  end.

Fixpoint select_operation (items : list (string * bool))
  (SELECTED_OPERATION : option string) : option string :=
  match items with
  | [] => SELECTED_OPERATION
  | (name, value) :: rest =>
      if str_in_list name ["encrypt"; "decrypt"; "bruteforce"; "generate"; "info"]
      then if value then select_operation rest (Some name)
           else select_operation rest SELECTED_OPERATION
      else select_operation rest SELECTED_OPERATION
  end.

(** One entry of the [CIPHER_INFO] table. *)
Record CipherInfo : Type := {
  operations : list string;
  key_type : option string;
  func_name : (nat -> Z) -> list value -> result (list string);
  func_args : list string
}.

(** Calling a cipher function on an unpacked argument list; a wrong number
    of arguments is a [TypeError]. *)
Definition call3 (f : value -> value -> string -> result (list string))
  (actual : list value) : result (list string) :=
  match actual with
  | [text; key; VStr operation] => f text key operation
  | _ => Raise TypeError
  end.

Definition call2 (f : value -> string -> result (list string))
  (actual : list value) : result (list string) :=
  match actual with
  | [text; VStr operation] => f text operation
  | _ => Raise TypeError
  end.

Definition CIPHER_INFO : list (string * CipherInfo) :=
  [("rot",
    {| operations := ["encrypt"; "decrypt"; "bruteforce"; "generate"; "info"];
       key_type := Some "int";
       func_name := fun rnd => call3 (rot rnd);
       func_args := ["text"; "key"; "operation"] |});
   ("subst",
    {| operations := ["encrypt"; "decrypt"; "generate"; "info"];
       key_type := Some "str";
       func_name := fun rnd => call3 (subst rnd);
       func_args := ["text"; "key"; "operation"] |});
   ("numval",
    {| operations := ["encrypt"; "decrypt"; "info"];
       key_type := None;
       func_name := fun _ => call2 numval;
       func_args := ["text"; "operation"] |});
   ("atbash",
    {| operations := ["encrypt"; "decrypt"; "info"];
       key_type := None;
       func_name := fun _ => call2 atbash;
       func_args := ["text"; "operation"] |})].

(** [CIPHER_INFO[name]] *)
Fixpoint dict_get {A : Type} (d : list (string * A)) (name : string) : result A :=
  match d with
  | [] => Raise KeyError
  | (k, v) :: d' => if String.eqb name k then Ok v else dict_get d' name
  end.

(** The argument as given, or the contents of the file of that name when
    [os.path.isfile] holds; stripped in both cases.  [fs] maps the name of a
    regular file to its contents: here every file can be opened and read as
    text.  Files whose reading raises are in [load_io] below, of which this
    is the case without failures ([argument_parser_readable]). *)
Definition load (fs : string -> option string) (arg : string) : string :=
  match fs arg with
  | Some contents => Py.strip contents
  | None => Py.strip arg
  end.

Definition load_text (fs : string -> option string) (args : Namespace)
  (SELECTED_OPERATION : string) : result value :=
  if str_in_list SELECTED_OPERATION ["encrypt"; "decrypt"; "bruteforce"] then
    match arg_text args with
    | None => Raise (UsageError (SELECTED_OPERATION ++ " requires -t/--text argument"))
    | Some t =>
        let TEXT := load fs t in
        if Py.isdigit TEXT then
          Raise (UsageError "-t/--text input must be a string, not a number")
        else Ok (VStr TEXT)
    end
  else if is_some (arg_text args) then
    Raise (UsageError (SELECTED_OPERATION ++ " does not require -t/--text argument"))
  else Ok VNone.

Definition load_key (fs : string -> option string) (args : Namespace)
  (SELECTED_CIPHER SELECTED_OPERATION : string) (info : CipherInfo) : result value :=
  if is_some (key_type info)
     && str_in_list SELECTED_OPERATION ["encrypt"; "decrypt"] then
    match arg_key args with
    | None => Raise (UsageError (SELECTED_CIPHER ++ " cipher requires -k/--key argument"))
    | Some k =>
        let KEY := load fs k in
        match Py.int KEY with
        | Ok z => Ok (VInt z)
        | Raise ValueError => Ok (VStr KEY)
        | Raise e => Raise e
        end
    end
  else Ok VNone.

Definition isinstance_int (v : value) : bool :=
  match v with VInt _ => true | _ => false end.

Definition isinstance_str (v : value) : bool :=
  match v with VStr _ => true | _ => false end.

Definition is_none (v : value) : bool :=
  match v with VNone => true | _ => false end.

Definition opt_eqb (o : option string) (s : string) : bool :=
  match o with Some x => String.eqb x s | None => false end.

Definition check_key_type (SELECTED_CIPHER : string) (info : CipherInfo)
  (KEY : value) : result unit :=
  if is_some (key_type info) && negb (is_none KEY) then
    if opt_eqb (key_type info) "int" && negb (isinstance_int KEY) then
      Raise (UsageError ("Cipher " ++ SELECTED_CIPHER ++ " requires numeric key (-k)"))
    else if opt_eqb (key_type info) "str" && negb (isinstance_str KEY) then
      Raise (UsageError ("Cipher " ++ SELECTED_CIPHER ++ " requires string key (-k)"))
    else Ok tt
  else Ok tt.

(** [argument_parser()], from the parsed namespace on: [fs] is the file
    system, [rnd] the entropy of [random]; the result is what the run
    prints, or the error it ends with.  The files of [fs] can all be read;
    [argument_parser_io] below is the same function on any file system. *)
Definition argument_parser (fs : string -> option string) (rnd : nat -> Z)
  (argv : Namespace) : result (list string) :=
  args <- parse_args argv ;;
  match select_cipher (vars args) None with
  | None => Raise (UsageError "Must provide a cipher. Use crypto --help")
  | Some SELECTED_CIPHER =>
      let SELECTED_OPERATION :=
        match select_operation (vars args) None with
        | None => "encrypt"
        | Some name => name
        end in
      info <- dict_get CIPHER_INFO SELECTED_CIPHER ;;
      if negb (str_in_list SELECTED_OPERATION (operations info)) then
        Raise (UsageError ("Operation " ++ SELECTED_OPERATION
                           ++ " is not compatible with " ++ SELECTED_CIPHER
                           ++ ". Use crypto --help"))
      else
        TEXT <- load_text fs args SELECTED_OPERATION ;;
        KEY <- load_key fs args SELECTED_CIPHER SELECTED_OPERATION info ;;
        _ <- check_key_type SELECTED_CIPHER info KEY ;;
        func_name info rnd
          (map (fun arg => if String.eqb arg "text" then TEXT
                           else if String.eqb arg "key" then KEY
                           else VStr SELECTED_OPERATION)
               (func_args info))
  end.

(** ** Argument parser on a file system whose files may fail to be read *)

(** What [open(name, "r")] followed by [file.read()] can end with instead of
    the contents: [OSError] (the file cannot be opened or read) or
    [UnicodeDecodeError] (its bytes are not text in the encoding; in Python a
    subclass of [ValueError], kept apart here).  Nothing in the program
    catches them. *)
Inductive ReadFailure : Type :=
| CannotRead
| CannotDecode.

Definition read_error (f : ReadFailure) : PyError :=
  match f with
  | CannotRead => OSError
  | CannotDecode => UnicodeDecodeError
  end.

(** A file system: [None] for a name of which [os.path.isfile] is false,
    otherwise the contents of the file or the failure of reading it. *)
Definition FileSystem : Type := string -> option (string + ReadFailure).

(** The file system in which the files of [fs] are read without failure. *)
Definition readable (fs : string -> option string) : FileSystem :=
  fun name => option_map inl (fs name).

Definition load_io (fs : FileSystem) (arg : string) : result string :=
  match fs arg with
  | Some (inl contents) => Ok (Py.strip contents)
  | Some (inr failure) => Raise (read_error failure)
  | None => Ok (Py.strip arg)
  end.

Definition load_text_io (fs : FileSystem) (args : Namespace)
  (SELECTED_OPERATION : string) : result value :=
  if str_in_list SELECTED_OPERATION ["encrypt"; "decrypt"; "bruteforce"] then
    match arg_text args with
    | None => Raise (UsageError (SELECTED_OPERATION ++ " requires -t/--text argument"))
    | Some t =>
        TEXT <- load_io fs t ;;
        if Py.isdigit TEXT then
          Raise (UsageError "-t/--text input must be a string, not a number")
        else Ok (VStr TEXT)
    end
  else if is_some (arg_text args) then
    Raise (UsageError (SELECTED_OPERATION ++ " does not require -t/--text argument"))
  else Ok VNone.

Definition load_key_io (fs : FileSystem) (args : Namespace)
  (SELECTED_CIPHER SELECTED_OPERATION : string) (info : CipherInfo) : result value :=
  if is_some (key_type info)
     && str_in_list SELECTED_OPERATION ["encrypt"; "decrypt"] then
    match arg_key args with
    | None => Raise (UsageError (SELECTED_CIPHER ++ " cipher requires -k/--key argument"))
    | Some k =>
        KEY <- load_io fs k ;;
        match Py.int KEY with
        | Ok z => Ok (VInt z)
        | Raise ValueError => Ok (VStr KEY)
        | Raise e => Raise e
        end
    end
  else Ok VNone.

Definition argument_parser_io (fs : FileSystem) (rnd : nat -> Z)
  (argv : Namespace) : result (list string) :=
  args <- parse_args argv ;;
  match select_cipher (vars args) None with
  | None => Raise (UsageError "Must provide a cipher. Use crypto --help")
  | Some SELECTED_CIPHER =>
      let SELECTED_OPERATION :=
        match select_operation (vars args) None with
        | None => "encrypt"
        | Some name => name
        end in
      info <- dict_get CIPHER_INFO SELECTED_CIPHER ;;
      if negb (str_in_list SELECTED_OPERATION (operations info)) then
        Raise (UsageError ("Operation " ++ SELECTED_OPERATION
                           ++ " is not compatible with " ++ SELECTED_CIPHER
                           ++ ". Use crypto --help"))
      else
        TEXT <- load_text_io fs args SELECTED_OPERATION ;;
        KEY <- load_key_io fs args SELECTED_CIPHER SELECTED_OPERATION info ;;
        _ <- check_key_type SELECTED_CIPHER info KEY ;;
        func_name info rnd
          (map (fun arg => if String.eqb arg "text" then TEXT
                           else if String.eqb arg "key" then KEY
                           else VStr SELECTED_OPERATION)
               (func_args info))
  end.

(** * Properties *)

(** ** Total counterparts of the string primitives, used in the proofs *)

Definition chars (s : string) : list ascii := list_ascii_of_string s.

(** Position of the first occurrence of [c] in [s]. *)
Fixpoint pos (s : string) (c : ascii) : nat :=
  match s with
  | EmptyString => O
  | String a s' => if Ascii.eqb c a then O else S (pos s' c)
  end.

(** Character of [s] at position [i]. *)
Definition char_at (s : string) (i : nat) : ascii :=
  match String.get i s with
  | Some c => c
  | None => "000"%char
  end.

(** A letter is a character that has a position in one of the alphabets. *)
Definition is_alpha (c : ascii) : bool :=
  Py.str_in c letters_lower || Py.str_in c letters_upper.

Definition alphabetic (T : string) : Prop :=
  Py.str_forallb is_alpha T = true.

(** [s1 + s2 + ...] over the characters of a string. *)
Fixpoint concat_map (f : ascii -> string) (s : string) : string :=
  match s with
  | EmptyString => EmptyString
  | String a s' => f a ++ concat_map f s'
  end.

Fixpoint str_filter (p : ascii -> bool) (s : string) : string :=
  match s with
  | EmptyString => EmptyString
  | String a s' => if p a then String a (str_filter p s') else str_filter p s'
  end.

(** The letter [k] places after [c] in [alphabet], cyclically. *)
Definition shift_in (alphabet : string) (k : Z) (c : ascii) : ascii :=
  char_at alphabet (Z.to_nat ((Z.of_nat (pos alphabet c) + k) mod 26)).

(** What [rot_logic] does to one character. *)
Definition rot_char (k : Z) (c : ascii) : ascii :=
  if Py.str_in c letters_lower then shift_in letters_lower k c
  else if Py.str_in c letters_upper then shift_in letters_upper k c
  else c.

(** The letter opposite to [c] in [alphabet]. *)
Definition mirror_in (alphabet : string) (c : ascii) : ascii :=
  char_at alphabet (25 - pos alphabet c).

(** What [atbash_logic] does to one character. *)
Definition atbash_char (c : ascii) : ascii :=
  if Py.str_in c letters_lower then mirror_in letters_lower c
  else if Py.str_in c letters_upper then mirror_in letters_upper c
  else c.

(** What [subst_logic_enc] and [subst_logic_dec] do to one character,
    given the two case variants of the key. *)
Definition subst_enc_char (key_lower key_upper : string) (c : ascii) : ascii :=
  if Py.str_in c letters_lower then char_at key_lower (pos letters_lower c)
  else if Py.str_in c letters_upper then char_at key_upper (pos letters_upper c)
  else c.

Definition subst_dec_char (key_lower key_upper : string) (c : ascii) : ascii :=
  if Py.str_in c key_lower then char_at letters_lower (pos key_lower c)
  else if Py.str_in c key_upper then char_at letters_upper (pos key_upper c)
  else c.

(** A substitution key: the 26 letters in some order. *)
Definition permutation_key (P : string) : Prop :=
  Permutation (chars P) (chars letters_upper).

(** A decision procedure for [Permutation] on characters. *)
Fixpoint remove_first (c : ascii) (l : list ascii) : option (list ascii) :=
  match l with
  | [] => None
  | a :: l' =>
      if Ascii.eqb c a then Some l'
      else option_map (cons a) (remove_first c l')
  end.

Fixpoint perm_check (l1 l2 : list ascii) : bool :=
  match l1 with
  | [] => match l2 with [] => true | _ => false end
  | a :: l1' =>
      match remove_first a l2 with
      | Some l2' => perm_check l1' l2'
      | None => false
      end
  end.

Definition nonspace (c : ascii) : bool := negb (Py.isspace c).

(** The number that [numval_logic_enc] emits for one character of the
    uppercased text, if any. *)
Definition numval_code (c : ascii) : option Z :=
  if Py.str_in c letters_upper then Some (Z.of_nat (pos letters_upper c) + 1)
  else if Ascii.eqb c " " then Some 0
  else None.

Definition numval_token (c : ascii) : string :=
  match numval_code c with
  | Some n => Py.str n ++ " "
  | None => EmptyString
  end.

Fixpoint numval_codes (s : string) : list Z :=
  match s with
  | EmptyString => []
  | String a s' =>
      match numval_code a with
      | Some n => n :: numval_codes s'
      | None => numval_codes s'
      end
  end.

(** Letters and spaces: the characters that survive the numeric round
    trip. *)
Definition letter_or_space (c : ascii) : bool :=
  is_alpha c || Ascii.eqb c " ".

(** The namespace of the command line [--<cipher> --<operation>] with the
    given [-t] and [-k] arguments. *)
Definition namespace (cipher operation : string) (text key : option string)
  : Namespace :=
  {| arg_rot := String.eqb cipher "rot";
     arg_subst := String.eqb cipher "subst";
     arg_numval := String.eqb cipher "numval";
     arg_atbash := String.eqb cipher "atbash";
     arg_encrypt := String.eqb operation "encrypt";
     arg_decrypt := String.eqb operation "decrypt";
     arg_bruteforce := String.eqb operation "bruteforce";
     arg_generate := String.eqb operation "generate";
     arg_info := String.eqb operation "info";
     arg_text := text;
     arg_key := key |}.

(** One line of the bruteforce listing. *)
Definition bruteforce_line (T : string) (i : Z) : string :=
  "ROT " ++ Py.str i ++ ": " ++ Py.str_map (rot_char i) T.

Definition not_alpha (c : ascii) : bool := negb (is_alpha c).

(** Whether the key is long enough for [subst_logic_enc] to replace [c]. *)
Definition key_covers (key_lower key_upper : string) (c : ascii) : bool :=
  if Py.str_in c letters_lower
  then (pos letters_lower c <? String.length key_lower)%nat
  else if Py.str_in c letters_upper
  then (pos letters_upper c <? String.length key_upper)%nat
  else true.

(** The character that [numval_logic_dec] writes for a token of 0..26. *)
Definition numval_char (n : Z) : ascii :=
  if n =? 0 then " "%char else char_at letters_upper (Z.to_nat (n - 1)).

(** The tokens in decimal notation, each followed by one space. *)
Fixpoint numval_text (tokens : list Z) : string :=
  match tokens with
  | [] => EmptyString
  | n :: rest => (Py.str n ++ " ") ++ numval_text rest
  end.

(** The names of the cipher flags and of the operation flags. *)
Definition cipher_names : list string := ["rot"; "subst"; "numval"; "atbash"].

Definition operation_names : list string :=
  ["encrypt"; "decrypt"; "bruteforce"; "generate"; "info"].

(** Whether [CIPHER_INFO] lists operation [o] for cipher [c]. *)
Definition supports (c o : string) : bool :=
  match dict_get CIPHER_INFO c with
  | Ok info => str_in_list o (operations info)
  | Raise _ => false
  end.

Definition usage_error {A : Type} (r : result A) : Prop :=
  exists msg, r = Raise (UsageError msg).

(** ** The primitives on concrete inputs *)

Example getitem_wraps : Py.getitem "ABC" (-1) = Ok "C"%char.
Proof. reflexivity. Qed.
Example getitem_range : Py.getitem "ABC" 3 = Raise IndexError.
Proof. reflexivity. Qed.
Example strip_ex : Py.strip "  a b  " = "a b".
Proof. reflexivity. Qed.
Example split_ex : Py.split " 3  1 2 0 " = ["3"; "1"; "2"; "0"].
Proof. reflexivity. Qed.
Example str_ex : Py.str 0 = "0" /\ Py.str 26 = "26" /\ Py.str (-7) = "-7".
Proof. repeat split. Qed.
Example int_ex :
  Py.int " -1_0 " = Ok (-10) /\ Py.int "007" = Ok 7 /\ Py.int "+5" = Ok 5
  /\ Py.int "1__0" = Raise ValueError /\ Py.int EmptyString = Raise ValueError
  /\ Py.int "_1" = Raise ValueError /\ Py.int "1_" = Raise ValueError
  /\ Py.int "x" = Raise ValueError /\ Py.int "-" = Raise ValueError.
Proof. repeat split. Qed.
Example upper_ex : Py.upper "Hello, z!" = "HELLO, Z!".
Proof. reflexivity. Qed.

(** ** Strings *)

Section StringFacts.

Lemma append_empty_r (s : string) : s ++ EmptyString = s.
Proof. induction s; simpl; congruence. Qed.

Lemma append_assoc (a b c : string) : (a ++ b) ++ c = a ++ (b ++ c).
Proof. induction a; simpl; congruence. Qed.

Lemma push_append (a b : string) (c : ascii) : push a c ++ b = a ++ String c b.
Proof. unfold push. now rewrite append_assoc. Qed.

Lemma length_append (a b : string) :
  String.length (a ++ b) = (String.length a + String.length b)%nat.
Proof. induction a; simpl; congruence. Qed.

Lemma str_in_In (c : ascii) (s : string) :
  Py.str_in c s = true <-> In c (chars s).
Proof.
  induction s as [|a s IH]; simpl.
  - split; [discriminate | tauto].
  - rewrite orb_true_iff, IH, Ascii.eqb_eq. intuition congruence.
Qed.

Lemma get_nth_error (s : string) (i : nat) :
  String.get i s = nth_error (chars s) i.
Proof.
  revert i; induction s as [|a s IH]; intros [|i]; simpl; auto.
Qed.

Lemma length_chars (s : string) : List.length (chars s) = String.length s.
Proof. induction s; simpl; congruence. Qed.

Lemma get_lt (s : string) (i : nat) (c : ascii) :
  String.get i s = Some c -> (i < String.length s)%nat.
Proof.
  rewrite get_nth_error, <- length_chars. intros H.
  apply nth_error_Some. congruence.
Qed.

Lemma get_char_at (s : string) (i : nat) :
  (i < String.length s)%nat -> String.get i s = Some (char_at s i).
Proof.
  intros H. unfold char_at.
  destruct (String.get i s) eqn:E; [reflexivity|].
  rewrite get_nth_error in E. apply nth_error_None in E.
  rewrite length_chars in E. lia.
Qed.

Lemma get_str_in (s : string) (i : nat) (c : ascii) :
  String.get i s = Some c -> Py.str_in c s = true.
Proof.
  rewrite get_nth_error, str_in_In. apply nth_error_In.
Qed.

Lemma pos_lt (s : string) (c : ascii) :
  Py.str_in c s = true -> (pos s c < String.length s)%nat.
Proof.
  induction s as [|a s IH]; simpl; [discriminate|].
  destruct (Ascii.eqb c a); simpl; intros H; [lia|].
  specialize (IH H). lia.
Qed.

Lemma get_pos (s : string) (c : ascii) :
  Py.str_in c s = true -> String.get (pos s c) s = Some c.
Proof.
  induction s as [|a s IH]; simpl; [discriminate|].
  destruct (Ascii.eqb c a) eqn:E; simpl; intros H.
  - apply Ascii.eqb_eq in E. congruence.
  - auto.
Qed.

Lemma str_index_pos (s : string) (c : ascii) :
  Py.str_in c s = true -> Py.str_index s c = Ok (Z.of_nat (pos s c)).
Proof.
  induction s as [|a s IH]; simpl; [discriminate|].
  destruct (Ascii.eqb c a); simpl; intros H; [reflexivity|].
  rewrite (IH H). simpl. f_equal. lia.
Qed.

Lemma pos_get (s : string) (i : nat) (c : ascii) :
  NoDup (chars s) -> String.get i s = Some c -> pos s c = i.
Proof.
  revert i; induction s as [|a s IH]; intros i ND H.
  - destruct i; discriminate.
  - simpl in ND. inversion ND as [|? ? Hnotin ND']; subst.
    destruct i as [|i]; simpl in *.
    + injection H as ->. now rewrite Ascii.eqb_refl.
    + destruct (Ascii.eqb c a) eqn:E.
      * apply Ascii.eqb_eq in E; subst.
        exfalso. apply Hnotin. apply str_in_In. eapply get_str_in; eauto.
      * f_equal. auto.
Qed.

Lemma getitem_nat (s : string) (i : nat) :
  (i < String.length s)%nat ->
  Py.getitem s (Z.of_nat i) = Ok (char_at s i).
Proof.
  intros H. unfold Py.getitem.
  replace (Z.of_nat i <? 0) with false by (symmetry; apply Z.ltb_ge; lia).
  replace (0 <=? Z.of_nat i) with true by (symmetry; apply Z.leb_le; lia).
  replace (Z.of_nat i <? Z.of_nat (String.length s)) with true
    by (symmetry; apply Z.ltb_lt; lia).
  simpl. rewrite Nat2Z.id, (get_char_at s i H). reflexivity.
Qed.

Lemma getitem_nonneg (s : string) (z : Z) :
  0 <= z < Z.of_nat (String.length s) ->
  Py.getitem s z = Ok (char_at s (Z.to_nat z)).
Proof.
  intros H. rewrite <- (Z2Nat.id z) at 1 by lia.
  apply getitem_nat. lia.
Qed.

Lemma getitem_too_large (s : string) (z : Z) :
  Z.of_nat (String.length s) <= z -> Py.getitem s z = Raise IndexError.
Proof.
  intros H. unfold Py.getitem.
  replace (z <? 0) with false by (symmetry; apply Z.ltb_ge; lia).
  replace (z <? Z.of_nat (String.length s)) with false
    by (symmetry; apply Z.ltb_ge; lia).
  now rewrite andb_false_r.
Qed.

Lemma getitem_negative (s : string) (z : Z) :
  - Z.of_nat (String.length s) <= z < 0 ->
  Py.getitem s z = Ok (char_at s (Z.to_nat (z + Z.of_nat (String.length s)))).
Proof.
  intros H. unfold Py.getitem.
  replace (z <? 0) with true by (symmetry; apply Z.ltb_lt; lia).
  replace (0 <=? z + Z.of_nat (String.length s)) with true
    by (symmetry; apply Z.leb_le; lia).
  replace (z + Z.of_nat (String.length s) <? Z.of_nat (String.length s))
    with true by (symmetry; apply Z.ltb_lt; lia).
  simpl. rewrite get_char_at by lia. reflexivity.
Qed.

Lemma chars_str_map (f : ascii -> ascii) (s : string) :
  chars (Py.str_map f s) = map f (chars s).
Proof. induction s; simpl; congruence. Qed.

Lemma length_str_map (f : ascii -> ascii) (s : string) :
  String.length (Py.str_map f s) = String.length s.
Proof. induction s; simpl; congruence. Qed.

Lemma get_str_map (f : ascii -> ascii) (s : string) (i : nat) :
  String.get i (Py.str_map f s) = option_map f (String.get i s).
Proof.
  revert i; induction s as [|a s IH]; intros [|i]; simpl; auto.
Qed.

Lemma str_map_ext (f g : ascii -> ascii) (s : string) :
  (forall c, Py.str_in c s = true -> f c = g c) ->
  Py.str_map f s = Py.str_map g s.
Proof.
  induction s as [|a s IH]; simpl; intros H; [reflexivity|].
  f_equal.
  - apply H. now rewrite Ascii.eqb_refl.
  - apply IH. intros c Hc. apply H. rewrite Hc. apply orb_true_r.
Qed.

Lemma str_map_id (f : ascii -> ascii) (s : string) :
  (forall c, Py.str_in c s = true -> f c = c) -> Py.str_map f s = s.
Proof.
  induction s as [|a s IH]; simpl; intros H; [reflexivity|].
  f_equal.
  - apply H. now rewrite Ascii.eqb_refl.
  - apply IH. intros c Hc. apply H. rewrite Hc. apply orb_true_r.
Qed.

Lemma str_map_map (f g : ascii -> ascii) (s : string) :
  Py.str_map f (Py.str_map g s) = Py.str_map (fun c => f (g c)) s.
Proof. induction s; simpl; congruence. Qed.

End StringFacts.

(** ** The two alphabets *)

Section Alphabets.

Lemma letters_lower_length : String.length letters_lower = 26%nat.
Proof. reflexivity. Qed.

Lemma letters_upper_length : String.length letters_upper = 26%nat.
Proof. reflexivity. Qed.

Ltac nodup_by_cases :=
  repeat (constructor;
          [ simpl; intros H; repeat (destruct H as [H|H]; [discriminate H|]);
            exact H
          | ]);
  constructor.

Lemma letters_lower_nodup : NoDup (chars letters_lower).
Proof. unfold letters_lower, chars; simpl. nodup_by_cases. Qed.

Lemma letters_upper_nodup : NoDup (chars letters_upper).
Proof. unfold letters_upper, chars; simpl. nodup_by_cases. Qed.

Lemma upper_not_lower (c : ascii) :
  Py.str_in c letters_upper = true -> Py.str_in c letters_lower = false.
Proof.
  destruct c as [[|] [|] [|] [|] [|] [|] [|] [|]]; vm_compute;
    intros H; first [reflexivity | discriminate H].
Qed.

Lemma lower_not_upper (c : ascii) :
  Py.str_in c letters_lower = true -> Py.str_in c letters_upper = false.
Proof.
  destruct c as [[|] [|] [|] [|] [|] [|] [|] [|]]; vm_compute;
    intros H; first [reflexivity | discriminate H].
Qed.

End Alphabets.

(** ** Rotation *)

Section Rotation.

Variable alphabet : string.
Hypothesis alphabet_nodup : NoDup (chars alphabet).
Hypothesis alphabet_length : String.length alphabet = 26%nat.

Lemma shift_in_get (k : Z) (c : ascii) :
  String.get (Z.to_nat ((Z.of_nat (pos alphabet c) + k) mod 26)) alphabet
  = Some (shift_in alphabet k c).
Proof.
  unfold shift_in. apply get_char_at. rewrite alphabet_length.
  pose proof (Z.mod_pos_bound (Z.of_nat (pos alphabet c) + k) 26). lia.
Qed.

Lemma shift_in_member (k : Z) (c : ascii) :
  Py.str_in (shift_in alphabet k c) alphabet = true.
Proof. eapply get_str_in, shift_in_get. Qed.

Lemma shift_in_pos (k : Z) (c : ascii) :
  Z.of_nat (pos alphabet (shift_in alphabet k c))
  = (Z.of_nat (pos alphabet c) + k) mod 26.
Proof.
  rewrite (pos_get alphabet _ _ alphabet_nodup (shift_in_get k c)).
  apply Z2Nat.id.
  pose proof (Z.mod_pos_bound (Z.of_nat (pos alphabet c) + k) 26). lia.
Qed.

Lemma shift_in_inverse (k : Z) (c : ascii) :
  Py.str_in c alphabet = true ->
  shift_in alphabet (0 - k) (shift_in alphabet k c) = c.
Proof.
  intros Hin. unfold shift_in at 1. rewrite shift_in_pos.
  replace (((Z.of_nat (pos alphabet c) + k) mod 26 + (0 - k)) mod 26)
    with (Z.of_nat (pos alphabet c)).
  - rewrite Nat2Z.id. unfold char_at. now rewrite (get_pos _ _ Hin).
  - rewrite Zplus_mod_idemp_l.
    replace (Z.of_nat (pos alphabet c) + k + (0 - k))
      with (Z.of_nat (pos alphabet c)) by lia.
    symmetry. apply Z.mod_small.
    pose proof (pos_lt _ _ Hin). lia.
Qed.

End Rotation.

Lemma rot_logic_loop_eq (text : string) (k : Z) (final_text : string) :
  rot_logic_loop text (VInt k) final_text
  = Ok (final_text ++ Py.str_map (rot_char k) text).
Proof.
  revert final_text; induction text as [|char rest IH]; intros final_text.
  - simpl. now rewrite append_empty_r.
  - assert (B : forall i, 0 <= (Z.of_nat i + k) mod 26 < 26)
      by (intros i; apply Z.mod_pos_bound; lia).
    cbn [rot_logic_loop Py.str_map]. unfold rot_char.
    destruct (Py.str_in char letters_lower) eqn:Hl;
      [| destruct (Py.str_in char letters_upper) eqn:Hu].
    + rewrite (str_index_pos _ _ Hl). cbn [bind as_int].
      rewrite getitem_nonneg by (rewrite letters_lower_length; apply B).
      cbn [bind]. rewrite IH, push_append. reflexivity.
    + rewrite (str_index_pos _ _ Hu). cbn [bind as_int].
      rewrite getitem_nonneg by (rewrite letters_upper_length; apply B).
      cbn [bind]. rewrite IH, push_append. reflexivity.
    + rewrite IH, push_append. reflexivity.
Qed.

Lemma rot_logic_eq (T : string) (k : Z) :
  rot_logic (VStr T) (VInt k) = Ok (Py.str_map (rot_char k) T).
Proof. unfold rot_logic; simpl. apply rot_logic_loop_eq. Qed.

Lemma rot_char_inverse (k : Z) (c : ascii) :
  rot_char (0 - k) (rot_char k c) = c.
Proof.
  unfold rot_char at 2.
  destruct (Py.str_in c letters_lower) eqn:Hl;
    [| destruct (Py.str_in c letters_upper) eqn:Hu].
  - unfold rot_char.
    rewrite (shift_in_member _ letters_lower_length).
    apply shift_in_inverse;
      auto using letters_lower_nodup, letters_lower_length.
  - unfold rot_char.
    rewrite (upper_not_lower _ (shift_in_member _ letters_upper_length k c)).
    rewrite (shift_in_member _ letters_upper_length).
    apply shift_in_inverse;
      auto using letters_upper_nodup, letters_upper_length.
  - unfold rot_char. now rewrite Hl, Hu.
Qed.

(** The round trip holds for every text, whatever its characters. *)
Lemma rot_logic_round_trip (T : string) (k : Z) :
  rot_logic (VStr (Py.str_map (rot_char k) T)) (VInt (0 - k)) = Ok T.
Proof.
  rewrite rot_logic_eq, str_map_map. f_equal.
  apply str_map_id. intros c _. apply rot_char_inverse.
Qed.

Lemma rot_encrypt_eq (rnd : nat -> Z) (T : string) (K : Z) :
  rot rnd (VStr T) (VInt K) "encrypt" = Ok [Py.str_map (rot_char K) T].
Proof.
  change (rot rnd (VStr T) (VInt K) "encrypt")
    with (r <- rot_logic (VStr T) (VInt K) ;; Ok [r]).
  now rewrite rot_logic_eq.
Qed.

Lemma rot_decrypt_eq (rnd : nat -> Z) (T : string) (K : Z) :
  rot rnd (VStr T) (VInt K) "decrypt" = Ok [Py.str_map (rot_char (0 - K)) T].
Proof.
  change (rot rnd (VStr T) (VInt K) "decrypt")
    with (r <- rot_logic (VStr T) (VInt (0 - K)) ;; Ok [r]).
  now rewrite rot_logic_eq.
Qed.

(** C1. For every text [T] made of letters and every integer key [K],
    the rotation cipher's encrypt prints one line [E], and its decrypt of
    [E] under the same key prints [T] back.  (The proof does not use the
    assumption on [T]: [rot_logic_round_trip] holds for every text.) *)
Theorem rot_decrypt_encrypt (rnd : nat -> Z) (T : string) (K : Z) :
  alphabetic T ->
  exists E,
    rot rnd (VStr T) (VInt K) "encrypt" = Ok [E]
    /\ rot rnd (VStr E) (VInt K) "decrypt" = Ok [T].
Proof.
  intros _. exists (Py.str_map (rot_char K) T). split.
  - apply rot_encrypt_eq.
  - rewrite rot_decrypt_eq, str_map_map. do 2 f_equal.
    apply str_map_id. intros c _. apply rot_char_inverse.
Qed.

Lemma rot_decrypt_encrypt_witness :
  alphabetic "HelloWorld"
  /\ exists E,
       rot (fun _ => 0) (VStr "HelloWorld") (VInt 3) "encrypt" = Ok [E]
       /\ rot (fun _ => 0) (VStr E) (VInt 3) "decrypt" = Ok ["HelloWorld"].
Proof.
  split; [reflexivity|].
  apply (rot_decrypt_encrypt (fun _ => 0) "HelloWorld" 3). reflexivity.
Defined.

(** C7. For every text [T] and integer key [K], rotation encrypt prints a
    text of the same length in which, position by position, a character at
    index [j] of the lowercase (uppercase) alphabet has become the character
    at index [(j + K) mod 26] of the same alphabet, and a character with no
    index in either alphabet is unchanged. *)
Theorem rot_encrypt_shifts (rnd : nat -> Z) (T : string) (K : Z) :
  exists out,
    rot rnd (VStr T) (VInt K) "encrypt" = Ok [out]
    /\ rot_logic (VStr T) (VInt K) = Ok out
    /\ String.length out = String.length T
    /\ forall (n : nat) (c : ascii), String.get n T = Some c ->
         (forall j, String.get j letters_lower = Some c ->
            String.get n out
            = String.get (Z.to_nat ((Z.of_nat j + K) mod 26)) letters_lower)
         /\ (forall j, String.get j letters_upper = Some c ->
            String.get n out
            = String.get (Z.to_nat ((Z.of_nat j + K) mod 26)) letters_upper)
         /\ ((forall j, String.get j letters_lower <> Some c) ->
             (forall j, String.get j letters_upper <> Some c) ->
             String.get n out = Some c).
Proof.
  exists (Py.str_map (rot_char K) T).
  split; [apply rot_encrypt_eq|].
  split; [apply rot_logic_eq|].
  split; [apply length_str_map|].
  intros n c Hn. rewrite get_str_map, Hn. cbn [option_map].
  repeat split.
  - intros j Hj. unfold rot_char. rewrite (get_str_in _ _ _ Hj).
    rewrite <- (pos_get _ _ _ letters_lower_nodup Hj).
    symmetry. apply shift_in_get. apply letters_lower_length.
  - intros j Hj. unfold rot_char.
    rewrite (upper_not_lower _ (get_str_in _ _ _ Hj)), (get_str_in _ _ _ Hj).
    rewrite <- (pos_get _ _ _ letters_upper_nodup Hj).
    symmetry. apply shift_in_get. apply letters_upper_length.
  - intros Hl Hu. unfold rot_char.
    destruct (Py.str_in c letters_lower) eqn:El.
    { exfalso. exact (Hl _ (get_pos _ _ El)). }
    destruct (Py.str_in c letters_upper) eqn:Eu.
    { exfalso. exact (Hu _ (get_pos _ _ Eu)). }
    reflexivity.
Qed.

(** C3. Rotation bruteforce on "HELLO", with no key, prints exactly 26
    lines; line [i] is the label "ROT i: " followed by the text shifted by
    [i], for [i] from 0 to 25 in this order; the line of key 0 carries
    "HELLO" and the line of key 13 carries "URYYB".  A run of the program
    with these arguments, "HELLO" not being the name of a file, prints the
    same lines. *)
Theorem rot_bruteforce_HELLO (rnd : nat -> Z) :
  exists lines,
    rot rnd (VStr "HELLO") VNone "bruteforce" = Ok lines
    /\ List.length lines = 26%nat
    /\ (forall i, (i < 26)%nat ->
          exists shifted,
            rot_logic (VStr "HELLO") (VInt (Z.of_nat i)) = Ok shifted
            /\ nth_error lines i
               = Some ("ROT " ++ Py.str (Z.of_nat i) ++ ": " ++ shifted))
    /\ nth_error lines 0 = Some "ROT 0: HELLO"
    /\ nth_error lines 13 = Some "ROT 13: URYYB"
    /\ argument_parser (fun _ => None) rnd
         (namespace "rot" "bruteforce" (Some "HELLO") None) = Ok lines.
Proof.
  eexists. split; [vm_compute; reflexivity|].
  split; [reflexivity|].
  split; [|repeat split; reflexivity].
  intros i Hi.
  do 26 (destruct i as [|i]; [eexists; split; vm_compute; reflexivity|]).
  lia.
Qed.

(** ** Atbash *)

Section Mirror.

Variable alphabet : string.
Hypothesis alphabet_nodup : NoDup (chars alphabet).
Hypothesis alphabet_length : String.length alphabet = 26%nat.

Lemma mirror_in_get (c : ascii) :
  String.get (25 - pos alphabet c) alphabet = Some (mirror_in alphabet c).
Proof. apply get_char_at. rewrite alphabet_length. lia. Qed.

Lemma mirror_in_member (c : ascii) :
  Py.str_in (mirror_in alphabet c) alphabet = true.
Proof. eapply get_str_in, mirror_in_get. Qed.

Lemma mirror_in_involutive (c : ascii) :
  Py.str_in c alphabet = true ->
  mirror_in alphabet (mirror_in alphabet c) = c.
Proof.
  intros Hin. unfold mirror_in at 1.
  rewrite (pos_get alphabet _ _ alphabet_nodup (mirror_in_get c)).
  pose proof (pos_lt _ _ Hin) as Hlt. rewrite alphabet_length in Hlt.
  replace (25 - (25 - pos alphabet c))%nat with (pos alphabet c) by lia.
  unfold char_at. now rewrite (get_pos _ _ Hin).
Qed.

Lemma mirror_in_getitem (c : ascii) :
  Py.str_in c alphabet = true ->
  Py.getitem alphabet (25 - Z.of_nat (pos alphabet c))
  = Ok (mirror_in alphabet c).
Proof.
  intros Hin.
  pose proof (pos_lt _ _ Hin) as Hlt. rewrite alphabet_length in Hlt.
  rewrite getitem_nonneg by (rewrite alphabet_length; lia).
  unfold mirror_in. do 2 f_equal. lia.
Qed.

End Mirror.

Lemma atbash_logic_loop_eq (text final_text : string) :
  atbash_logic_loop text final_text
  = Ok (final_text ++ Py.str_map atbash_char text).
Proof.
  revert final_text; induction text as [|char rest IH]; intros final_text.
  - simpl. now rewrite append_empty_r.
  - cbn [atbash_logic_loop Py.str_map]. unfold atbash_char.
    destruct (Py.str_in char letters_lower) eqn:Hl;
      [| destruct (Py.str_in char letters_upper) eqn:Hu].
    + rewrite (str_index_pos _ _ Hl). cbn [bind].
      rewrite (mirror_in_getitem _ letters_lower_length _ Hl).
      cbn [bind]. rewrite IH, push_append. reflexivity.
    + rewrite (str_index_pos _ _ Hu). cbn [bind].
      rewrite (mirror_in_getitem _ letters_upper_length _ Hu).
      cbn [bind]. rewrite IH, push_append. reflexivity.
    + rewrite IH, push_append. reflexivity.
Qed.

Lemma atbash_logic_eq (T : string) :
  atbash_logic (VStr T) = Ok (Py.str_map atbash_char T).
Proof. unfold atbash_logic; simpl. apply atbash_logic_loop_eq. Qed.

Lemma atbash_char_involutive (c : ascii) : atbash_char (atbash_char c) = c.
Proof.
  unfold atbash_char at 2.
  destruct (Py.str_in c letters_lower) eqn:Hl;
    [| destruct (Py.str_in c letters_upper) eqn:Hu].
  - unfold atbash_char.
    rewrite (mirror_in_member _ letters_lower_length).
    apply mirror_in_involutive;
      auto using letters_lower_nodup, letters_lower_length.
  - unfold atbash_char.
    rewrite (upper_not_lower _ (mirror_in_member _ letters_upper_length c)).
    rewrite (mirror_in_member _ letters_upper_length).
    apply mirror_in_involutive;
      auto using letters_upper_nodup, letters_upper_length.
  - unfold atbash_char. now rewrite Hl, Hu.
Qed.

Lemma atbash_encrypt_eq (T : string) :
  atbash (VStr T) "encrypt" = Ok [Py.str_map atbash_char T].
Proof.
  change (atbash (VStr T) "encrypt") with (r <- atbash_logic (VStr T) ;; Ok [r]).
  now rewrite atbash_logic_eq.
Qed.

Lemma atbash_decrypt_eq (T : string) :
  atbash (VStr T) "decrypt" = Ok [Py.str_map atbash_char T].
Proof.
  change (atbash (VStr T) "decrypt") with (r <- atbash_logic (VStr T) ;; Ok [r]).
  now rewrite atbash_logic_eq.
Qed.

(** C6. For every text [T], Atbash encrypt and decrypt print the same
    text [out], and applying the transform to [out] gives [T] back.  In
    [out], position by position, a character at index [j] of the lowercase
    (uppercase) alphabet has become the character at index [25 - j] of the
    same alphabet, and a character with no index in either alphabet is
    unchanged. *)
Theorem atbash_self_inverse (T : string) :
  exists out,
    atbash_logic (VStr T) = Ok out
    /\ atbash (VStr T) "encrypt" = Ok [out]
    /\ atbash (VStr T) "decrypt" = Ok [out]
    /\ atbash_logic (VStr out) = Ok T
    /\ forall (n : nat) (c : ascii), String.get n T = Some c ->
         (forall j, String.get j letters_lower = Some c ->
            String.get n out = String.get (25 - j) letters_lower)
         /\ (forall j, String.get j letters_upper = Some c ->
            String.get n out = String.get (25 - j) letters_upper)
         /\ ((forall j, String.get j letters_lower <> Some c) ->
             (forall j, String.get j letters_upper <> Some c) ->
             String.get n out = Some c).
Proof.
  exists (Py.str_map atbash_char T).
  split; [apply atbash_logic_eq|].
  split; [apply atbash_encrypt_eq|].
  split; [apply atbash_decrypt_eq|].
  split.
  { rewrite atbash_logic_eq, str_map_map. f_equal.
    apply str_map_id. intros c _. apply atbash_char_involutive. }
  intros n c Hn. rewrite get_str_map, Hn. cbn [option_map].
  repeat split.
  - intros j Hj. unfold atbash_char. rewrite (get_str_in _ _ _ Hj).
    rewrite <- (pos_get _ _ _ letters_lower_nodup Hj).
    symmetry. apply mirror_in_get. apply letters_lower_length.
  - intros j Hj. unfold atbash_char.
    rewrite (upper_not_lower _ (get_str_in _ _ _ Hj)), (get_str_in _ _ _ Hj).
    rewrite <- (pos_get _ _ _ letters_upper_nodup Hj).
    symmetry. apply mirror_in_get. apply letters_upper_length.
  - intros Hl Hu. unfold atbash_char.
    destruct (Py.str_in c letters_lower) eqn:El.
    { exfalso. exact (Hl _ (get_pos _ _ El)). }
    destruct (Py.str_in c letters_upper) eqn:Eu.
    { exfalso. exact (Hu _ (get_pos _ _ Eu)). }
    reflexivity.
Qed.

Example atbash_Hello : atbash (VStr "Hello") "encrypt" = Ok ["Svool"].
Proof. reflexivity. Qed.

(** ** Substitution *)

Section SubstitutionKey.

Variables key_lower key_upper : string.
Hypothesis key_lower_perm : Permutation (chars key_lower) (chars letters_lower).
Hypothesis key_upper_perm : Permutation (chars key_upper) (chars letters_upper).

Lemma key_lower_length : String.length key_lower = 26%nat.
Proof.
  rewrite <- length_chars, (Permutation_length key_lower_perm). reflexivity.
Qed.

Lemma key_upper_length : String.length key_upper = 26%nat.
Proof.
  rewrite <- length_chars, (Permutation_length key_upper_perm). reflexivity.
Qed.

Lemma key_lower_nodup : NoDup (chars key_lower).
Proof.
  eapply Permutation_NoDup; [symmetry; exact key_lower_perm|].
  exact letters_lower_nodup.
Qed.

Lemma key_upper_nodup : NoDup (chars key_upper).
Proof.
  eapply Permutation_NoDup; [symmetry; exact key_upper_perm|].
  exact letters_upper_nodup.
Qed.

Lemma key_lower_member (c : ascii) :
  Py.str_in c key_lower = Py.str_in c letters_lower.
Proof.
  apply eq_true_iff_eq. rewrite !str_in_In. split; apply Permutation_in;
    [exact key_lower_perm | symmetry; exact key_lower_perm].
Qed.

Lemma key_upper_member (c : ascii) :
  Py.str_in c key_upper = Py.str_in c letters_upper.
Proof.
  apply eq_true_iff_eq. rewrite !str_in_In. split; apply Permutation_in;
    [exact key_upper_perm | symmetry; exact key_upper_perm].
Qed.

Lemma subst_enc_loop_eq (text final_text : string) :
  subst_enc_loop text key_lower key_upper final_text
  = Ok (final_text ++ Py.str_map (subst_enc_char key_lower key_upper) text).
Proof.
  revert final_text; induction text as [|char rest IH]; intros final_text.
  - simpl. now rewrite append_empty_r.
  - cbn [subst_enc_loop Py.str_map]. unfold subst_enc_char.
    destruct (Py.str_in char letters_lower) eqn:Hl;
      [| destruct (Py.str_in char letters_upper) eqn:Hu].
    + rewrite (str_index_pos _ _ Hl). cbn [bind].
      rewrite getitem_nat
        by (rewrite key_lower_length, <- letters_lower_length;
            now apply pos_lt).
      cbn [bind]. rewrite IH, push_append. reflexivity.
    + rewrite (str_index_pos _ _ Hu). cbn [bind].
      rewrite getitem_nat
        by (rewrite key_upper_length, <- letters_upper_length;
            now apply pos_lt).
      cbn [bind]. rewrite IH, push_append. reflexivity.
    + rewrite IH, push_append. reflexivity.
Qed.

Lemma subst_dec_loop_eq (text final_text : string) :
  subst_dec_loop text key_lower key_upper final_text
  = Ok (final_text ++ Py.str_map (subst_dec_char key_lower key_upper) text).
Proof.
  revert final_text; induction text as [|char rest IH]; intros final_text.
  - simpl. now rewrite append_empty_r.
  - cbn [subst_dec_loop Py.str_map]. unfold subst_dec_char.
    destruct (Py.str_in char key_lower) eqn:Hl;
      [| destruct (Py.str_in char key_upper) eqn:Hu].
    + rewrite (str_index_pos _ _ Hl). cbn [bind].
      rewrite getitem_nat
        by (rewrite letters_lower_length, <- key_lower_length;
            now apply pos_lt).
      cbn [bind]. rewrite IH, push_append. reflexivity.
    + rewrite (str_index_pos _ _ Hu). cbn [bind].
      rewrite getitem_nat
        by (rewrite letters_upper_length, <- key_upper_length;
            now apply pos_lt).
      cbn [bind]. rewrite IH, push_append. reflexivity.
    + rewrite IH, push_append. reflexivity.
Qed.

Lemma subst_char_inverse (c : ascii) :
  subst_dec_char key_lower key_upper (subst_enc_char key_lower key_upper c) = c.
Proof.
  unfold subst_enc_char.
  destruct (Py.str_in c letters_lower) eqn:Hl;
    [| destruct (Py.str_in c letters_upper) eqn:Hu].
  - assert (G : String.get (pos letters_lower c) key_lower
                = Some (char_at key_lower (pos letters_lower c))).
    { apply get_char_at. rewrite key_lower_length, <- letters_lower_length.
      now apply pos_lt. }
    unfold subst_dec_char.
    rewrite (get_str_in _ _ _ G), (pos_get _ _ _ key_lower_nodup G).
    unfold char_at. now rewrite (get_pos _ _ Hl).
  - assert (G : String.get (pos letters_upper c) key_upper
                = Some (char_at key_upper (pos letters_upper c))).
    { apply get_char_at. rewrite key_upper_length, <- letters_upper_length.
      now apply pos_lt. }
    unfold subst_dec_char.
    pose proof (get_str_in _ _ _ G) as Hin.
    rewrite key_lower_member, upper_not_lower
      by (now rewrite <- key_upper_member).
    rewrite Hin, (pos_get _ _ _ key_upper_nodup G).
    unfold char_at. now rewrite (get_pos _ _ Hu).
  - unfold subst_dec_char.
    now rewrite key_lower_member, key_upper_member, Hl, Hu.
Qed.

End SubstitutionKey.

Lemma upper_char_of_upper (c : ascii) :
  Py.str_in c letters_upper = true -> Py.upper_char c = c.
Proof.
  destruct c as [[|] [|] [|] [|] [|] [|] [|] [|]]; vm_compute;
    intros H; first [reflexivity | discriminate H].
Qed.

Lemma lower_upper_char (c : ascii) :
  Py.lower_char (Py.upper_char c) = Py.lower_char c.
Proof. destruct c as [[|] [|] [|] [|] [|] [|] [|] [|]]; reflexivity. Qed.

Lemma upper_upper_char (c : ascii) :
  Py.upper_char (Py.upper_char c) = Py.upper_char c.
Proof. destruct c as [[|] [|] [|] [|] [|] [|] [|] [|]]; reflexivity. Qed.

Lemma chars_append (a b : string) :
  chars (a ++ b) = (chars a ++ chars b)%list.
Proof. induction a; simpl; congruence. Qed.

(** [upper] is a character-wise map on a string without sharp s. *)
Lemma upper_plain (s : string) :
  (forall c, Py.str_in c s = true -> Py.code c <> 223) ->
  Py.upper s = Py.str_map Py.upper_char s.
Proof.
  induction s as [|a s IH]; intros H; [reflexivity|].
  cbn [Py.upper Py.str_map]. unfold Py.upper_chars.
  destruct (Py.code a =? 223) eqn:E.
  - apply Z.eqb_eq in E. exfalso. apply (H a); [|exact E].
    cbn [Py.str_in]. now rewrite Ascii.eqb_refl.
  - cbn [append]. f_equal. apply IH. intros c Hc. apply H.
    cbn [Py.str_in]. rewrite Hc. apply orb_true_r.
Qed.

(** The sharp s doubles an S: an uppercased string without repetition
    came from a string without sharp s. *)
Lemma upper_nodup_plain (s : string) :
  NoDup (chars (Py.upper s)) -> Py.upper s = Py.str_map Py.upper_char s.
Proof.
  induction s as [|a s IH]; intros H; [reflexivity|].
  cbn [Py.upper Py.str_map] in *. unfold Py.upper_chars in *.
  destruct (Py.code a =? 223).
  - exfalso. cbn [append chars list_ascii_of_string] in H.
    inversion H as [|x l Hnotin _]; subst. apply Hnotin. now left.
  - cbn [append chars list_ascii_of_string] in H. cbn [append].
    inversion H as [|x l _ Hrest]; subst. f_equal. now apply IH.
Qed.

(** The two characters that stand for their own capitals (see
    [Py.upper_char]): each is its own small letter, so that a test
    [char in key_lower] finds it wherever [key_upper] holds it; it is no
    letter of [a-z] or [A-Z], no space and no digit; and no other character
    has it among its capitals. *)
Lemma upper_stand_in (c : ascii) :
  Py.code c = 181 \/ Py.code c = 255 ->
  Py.lower_char c = c
  /\ is_alpha c = false
  /\ Py.isspace c = false
  /\ Py.isdigit_char c = false
  /\ forall a, a <> c -> Py.str_in c (Py.upper_chars a) = false.
Proof.
  intros H.
  assert (E : c = ascii_of_nat 181 \/ c = ascii_of_nat 255).
  { destruct H as [H|H]; [left|right];
      rewrite <- (ascii_nat_embedding c); f_equal;
      unfold Py.code in H; lia. }
  destruct E as [->| ->]; repeat split;
    intros a Ha;
    destruct a as [[|] [|] [|] [|] [|] [|] [|] [|]];
    first [reflexivity | exfalso; apply Ha; reflexivity].
Qed.

(** A key that is a permutation of the alphabet up to the case of its
    letters gives the two permutations used by the cipher. *)
Lemma key_upper_permutation (P : string) :
  Permutation (chars (Py.upper P)) (chars letters_upper) ->
  Permutation (chars (Py.lower P)) (chars letters_lower).
Proof.
  intros H.
  assert (ND : NoDup (chars (Py.upper P))).
  { eapply Permutation_NoDup; [symmetry; exact H|].
    exact letters_upper_nodup. }
  rewrite (upper_nodup_plain P ND) in H.
  replace (Py.lower P) with (Py.lower (Py.str_map Py.upper_char P)).
  - unfold Py.lower at 1. rewrite chars_str_map.
    change (chars letters_lower) with (map Py.lower_char (chars letters_upper)).
    now apply Permutation_map.
  - unfold Py.lower. rewrite str_map_map.
    apply str_map_ext. intros c _. apply lower_upper_char.
Qed.

Lemma upper_letter_not_sharp_s (c : ascii) :
  Py.str_in c letters_upper = true -> Py.code c <> 223.
Proof.
  destruct c as [[|] [|] [|] [|] [|] [|] [|] [|]]; vm_compute;
    intros H; first [discriminate H | intros E; discriminate E].
Qed.

Lemma permutation_key_upper (P : string) :
  permutation_key P -> Py.upper P = P.
Proof.
  intros H.
  assert (G : forall c, Py.str_in c P = true ->
                        Py.str_in c letters_upper = true).
  { intros c Hc. apply str_in_In.
    eapply Permutation_in; [exact H|]. now apply str_in_In. }
  rewrite upper_plain by (intros c Hc; now apply upper_letter_not_sharp_s, G).
  apply str_map_id. intros c Hc. now apply upper_char_of_upper, G.
Qed.

(** The round trip for every text and every key that is a permutation of
    the alphabet in upper case, lower case or a mix of the two. *)
Lemma subst_logic_round_trip (T P : string) :
  Permutation (chars (Py.upper P)) (chars letters_upper) ->
  exists E,
    subst_logic_enc (VStr T) (VStr P) = Ok E
    /\ subst_logic_dec (VStr E) (VStr P) = Ok T.
Proof.
  intros Hu. pose proof (key_upper_permutation P Hu) as Hl.
  exists (Py.str_map (subst_enc_char (Py.lower P) (Py.upper P)) T). split.
  - unfold subst_logic_enc. cbn [str_method iter_str bind].
    now rewrite (subst_enc_loop_eq _ _ Hl Hu).
  - unfold subst_logic_dec. cbn [str_method iter_str bind].
    rewrite (subst_dec_loop_eq _ _ Hl Hu), str_map_map.
    cbn [append]. f_equal. apply str_map_id. intros c _.
    now apply subst_char_inverse.
Qed.

(** C2. For every text [T] made of letters and every key [P] that is a
    permutation of the 26 letters of the alphabet, substitution encrypt
    prints one line [E], and substitution decrypt of [E] under the same key
    prints [T] back.  ([subst_logic_round_trip] is the same fact for every
    text and for keys in either case.) *)
Theorem subst_decrypt_encrypt (rnd : nat -> Z) (T P : string) :
  alphabetic T ->
  permutation_key P ->
  exists E,
    subst rnd (VStr T) (VStr P) "encrypt" = Ok [E]
    /\ subst rnd (VStr E) (VStr P) "decrypt" = Ok [T].
Proof.
  intros _ HP.
  destruct (subst_logic_round_trip T P) as (E & He & Hd).
  { rewrite (permutation_key_upper P HP). exact HP. }
  exists E. split.
  - change (subst rnd (VStr T) (VStr P) "encrypt")
      with (r <- subst_logic_enc (VStr T) (VStr P) ;; Ok [r]).
    now rewrite He.
  - change (subst rnd (VStr E) (VStr P) "decrypt")
      with (r <- subst_logic_dec (VStr E) (VStr P) ;; Ok [r]).
    now rewrite Hd.
Qed.

Lemma remove_first_perm (c : ascii) (l l' : list ascii) :
  remove_first c l = Some l' -> Permutation l (c :: l').
Proof.
  revert l'; induction l as [|a l IH]; intros l'; simpl; [discriminate|].
  destruct (Ascii.eqb c a) eqn:E.
  - apply Ascii.eqb_eq in E. intros [= <-]. now subst.
  - destruct (remove_first c l) as [r|]; simpl; [|discriminate].
    intros [= <-]. rewrite (IH r eq_refl). apply perm_swap.
Qed.

Lemma perm_check_sound (l1 l2 : list ascii) :
  perm_check l1 l2 = true -> Permutation l1 l2.
Proof.
  revert l2; induction l1 as [|a l1 IH]; intros l2; simpl.
  - destruct l2; [constructor | discriminate].
  - destruct (remove_first a l2) as [r|] eqn:E; [|discriminate].
    intros H. rewrite (remove_first_perm _ _ _ E).
    constructor. now apply IH.
Qed.

Lemma subst_decrypt_encrypt_witness :
  alphabetic "HelloWorld"
  /\ permutation_key "QWERTYUIOPASDFGHJKLZXCVBNM"
  /\ exists E,
       subst (fun _ => 0) (VStr "HelloWorld")
         (VStr "QWERTYUIOPASDFGHJKLZXCVBNM") "encrypt" = Ok [E]
       /\ subst (fun _ => 0) (VStr E)
            (VStr "QWERTYUIOPASDFGHJKLZXCVBNM") "decrypt" = Ok ["HelloWorld"].
Proof.
  assert (K : permutation_key "QWERTYUIOPASDFGHJKLZXCVBNM")
    by (apply perm_check_sound; reflexivity).
  split; [reflexivity|]. split; [exact K|].
  apply (subst_decrypt_encrypt (fun _ => 0) "HelloWorld"
           "QWERTYUIOPASDFGHJKLZXCVBNM"); [reflexivity | exact K].
Defined.

(** ** Key generation *)

Lemma randint_range (a b e r : Z) : randint a b e = Ok r -> a <= r <= b.
Proof.
  unfold randint. destruct (b <? a) eqn:E; [discriminate|].
  apply Z.ltb_ge in E. intros [= <-].
  pose proof (Z.mod_pos_bound e (b - a + 1)). lia.
Qed.

Lemma randint_any (a b r : Z) :
  a <= r <= b -> exists e, randint a b e = Ok r.
Proof.
  intros H. exists (r - a). unfold randint.
  replace (b <? a) with false by (symmetry; apply Z.ltb_ge; lia).
  rewrite Z.mod_small by lia. f_equal. lia.
Qed.

Lemma pop_permutation (A : Type) (l : list A) (j : nat) (a : A) :
  nth_error l j = Some a ->
  Permutation l (a :: firstn j l ++ skipn (S j) l).
Proof.
  revert j; induction l as [|x l IH]; intros [|j] H; try discriminate.
  - injection H as ->. reflexivity.
  - cbn [nth_error] in H. cbn [firstn skipn app].
    rewrite (IH j H) at 1. apply perm_swap.
Qed.

Lemma subst_gen_loop_perm (rnd : nat -> Z) (n : nat) :
  forall (drawn : nat) (letters : list ascii) (final_text : string),
    List.length letters = n ->
    exists out,
      subst_gen_loop rnd n drawn letters final_text = Ok (final_text ++ out)
      /\ Permutation (chars out) letters.
Proof.
  induction n as [|n IH]; intros drawn letters final_text Hlen.
  - exists EmptyString. split.
    + simpl. now rewrite append_empty_r.
    + destruct letters; [constructor | discriminate].
  - cbn [subst_gen_loop].
    destruct (randint 0 (Z.of_nat (List.length letters) - 1) (rnd drawn))
      as [r|e] eqn:Hr.
    2:{ unfold randint in Hr.
        replace (Z.of_nat (List.length letters) - 1 <? 0) with false in Hr
          by (symmetry; apply Z.ltb_ge; lia).
        discriminate. }
    apply randint_range in Hr. cbn [bind].
    assert (Hpos : list_position letters r = Ok (Z.to_nat r)).
    { unfold list_position.
      replace (r <? 0) with false by (symmetry; apply Z.ltb_ge; lia).
      replace (0 <=? r) with true by (symmetry; apply Z.leb_le; lia).
      replace (r <? Z.of_nat (List.length letters)) with true
        by (symmetry; apply Z.ltb_lt; lia).
      reflexivity. }
    unfold list_getitem, list_pop. rewrite Hpos. cbn [bind].
    destruct (nth_error letters (Z.to_nat r)) as [c|] eqn:Hc.
    2:{ apply nth_error_None in Hc. lia. }
    cbn [bind].
    pose proof (pop_permutation _ _ _ _ Hc) as Hperm.
    destruct (IH (S drawn)
                (firstn (Z.to_nat r) letters ++ skipn (S (Z.to_nat r)) letters)%list
                (push final_text c)) as (out & Hout & Hp).
    { apply Permutation_length in Hperm. cbn [List.length] in Hperm. lia. }
    exists (String c out). split.
    + rewrite Hout, push_append. reflexivity.
    + simpl. rewrite Hperm. now constructor.
Qed.

(** C9. Whatever the random draws, substitution generate prints one key,
    of exactly 26 characters, each an uppercase letter, in which each of
    the 26 letters of the alphabet occurs exactly once. *)
Theorem subst_generate_permutation (rnd : nat -> Z) (text key : value) :
  exists generated,
    subst rnd text key "generate" = Ok [generated]
    /\ subst_logic_gen rnd = Ok generated
    /\ String.length generated = 26%nat
    /\ Py.str_forallb (fun c => Py.str_in c letters_upper) generated = true
    /\ (forall c, Py.str_in c letters_upper = true ->
          count_occ ascii_dec (chars generated) c = 1%nat)
    /\ permutation_key generated.
Proof.
  destruct (subst_gen_loop_perm rnd 26 O (chars letters_upper) EmptyString eq_refl)
    as (out & Hout & Hperm).
  cbn [append] in Hout.
  exists out.
  split.
  { change (subst rnd text key "generate")
      with (r <- subst_logic_gen rnd ;; Ok [r]).
    unfold subst_logic_gen. fold (chars letters_upper). now rewrite Hout. }
  split; [exact Hout|].
  split.
  { rewrite <- length_chars, (Permutation_length Hperm). reflexivity. }
  split.
  { assert (G : forall s, (forall c, In c (chars s) ->
                                     Py.str_in c letters_upper = true) ->
                Py.str_forallb (fun c => Py.str_in c letters_upper) s = true).
    { induction s as [|a s IHs]; intros H; [reflexivity|].
      cbn [Py.str_forallb]. rewrite (H a) by (now left).
      apply IHs. intros c Hc. apply H. now right. }
    apply G. intros c Hc. apply str_in_In.
    eapply Permutation_in; eauto. }
  split; [|exact Hperm].
  intros c Hc.
  rewrite (proj1 (Permutation_count_occ ascii_dec _ _) Hperm).
  apply NoDup_count_occ'; [exact letters_upper_nodup | now apply str_in_In].
Qed.

(** ** Decimal notation: [int(str(n)) == n] *)

Section Decimal.

Lemma decimal_char_nonspace (c : ascii) :
  Py.isdecimal_char c = true -> nonspace c = true.
Proof.
  destruct c as [[|] [|] [|] [|] [|] [|] [|] [|]]; vm_compute;
    intros H; first [reflexivity | discriminate H].
Qed.

Lemma uint_string_decimal (u : uint) :
  Py.str_forallb Py.isdecimal_char (NilEmpty.string_of_uint u) = true.
Proof. induction u; simpl; auto. Qed.

Lemma forallb_impl (p q : ascii -> bool) (s : string) :
  (forall c, p c = true -> q c = true) ->
  Py.str_forallb p s = true -> Py.str_forallb q s = true.
Proof.
  intros H. induction s as [|a s IH]; simpl; [reflexivity|].
  rewrite !andb_true_iff. intros [Ha Hs]. auto.
Qed.

Lemma uint_string_nonempty (u : uint) :
  u <> Nil -> NilEmpty.string_of_uint u <> EmptyString.
Proof. destruct u; simpl; congruence. Qed.

Lemma literal_digits_decimal (s : string) (prev : bool) :
  Py.str_forallb Py.isdecimal_char s = true ->
  s <> EmptyString \/ prev = true ->
  Py.literal_digits s prev = Some s.
Proof.
  revert prev; induction s as [|a s IH]; intros prev Hd Hne.
  - destruct Hne as [Hne| ->]; [congruence | reflexivity].
  - cbn [Py.str_forallb] in Hd. apply andb_true_iff in Hd as [Ha Hs].
    cbn [Py.literal_digits]. rewrite Ha, (IH true Hs) by auto. reflexivity.
Qed.

Lemma int_of_digits_uint (u : uint) :
  u <> Nil -> Py.int_of_digits (NilEmpty.string_of_uint u) = Ok (Z.of_uint u).
Proof.
  intros Hu. unfold Py.int_of_digits.
  rewrite literal_digits_decimal
    by (auto using uint_string_decimal, uint_string_nonempty).
  now rewrite NilEmpty.usu.
Qed.

Lemma rstrip_nonspace (s : string) :
  Py.str_forallb nonspace s = true -> Py.rstrip s = s.
Proof.
  induction s as [|a s IH]; [reflexivity|].
  cbn [Py.str_forallb]. rewrite andb_true_iff. intros [Ha Hs].
  cbn [Py.rstrip]. rewrite (IH Hs).
  unfold nonspace in Ha. apply negb_true_iff in Ha.
  destruct s; [now rewrite Ha | reflexivity].
Qed.

Lemma strip_nonspace (s : string) :
  Py.str_forallb nonspace s = true -> Py.strip s = s.
Proof.
  intros H. unfold Py.strip.
  replace (Py.lstrip s) with s; [now apply rstrip_nonspace|].
  destruct s as [|a s]; [reflexivity|].
  cbn [Py.str_forallb] in H. apply andb_true_iff in H as [Ha _].
  unfold nonspace in Ha. apply negb_true_iff in Ha.
  cbn [Py.lstrip]. now rewrite Ha.
Qed.

Lemma int_unsigned (a : ascii) (s : string) :
  Py.isdecimal_char a = true ->
  Py.strip (String a s) = String a s ->
  Py.int (String a s) = Py.int_of_digits (String a s).
Proof.
  intros Ha Hs. unfold Py.int. rewrite Hs. revert Ha.
  destruct a as [[|] [|] [|] [|] [|] [|] [|] [|]]; vm_compute;
    intros H; first [reflexivity | discriminate H].
Qed.

Lemma int_uint_string (u : uint) :
  u <> Nil ->
  Py.int (NilEmpty.string_of_uint u) = Ok (Z.of_uint u).
Proof.
  intros Hu. rewrite <- (int_of_digits_uint u Hu).
  pose proof (uint_string_decimal u) as Hd.
  pose proof (uint_string_nonempty u Hu) as Hne.
  destruct (NilEmpty.string_of_uint u) as [|a s] eqn:E; [congruence|].
  apply int_unsigned.
  - cbn [Py.str_forallb] in Hd. now apply andb_true_iff in Hd as [Ha _].
  - apply strip_nonspace.
    eapply forallb_impl; [exact decimal_char_nonspace | exact Hd].
Qed.

Lemma str_nonspace (n : Z) : Py.str_forallb nonspace (Py.str n) = true.
Proof.
  unfold Py.str.
  destruct (Z.to_int n) as [u|u]; cbn [NilEmpty.string_of_int].
  - eapply forallb_impl;
      [exact decimal_char_nonspace | apply uint_string_decimal].
  - cbn [Py.str_forallb]. apply andb_true_iff. split; [reflexivity|].
    eapply forallb_impl;
      [exact decimal_char_nonspace | apply uint_string_decimal].
Qed.

Lemma str_nonempty (n : Z) : Py.str n <> EmptyString.
Proof.
  unfold Py.str. destruct n as [|p|p]; cbn [Z.to_int NilEmpty.string_of_int].
  - discriminate.
  - apply uint_string_nonempty, DecimalPos.Unsigned.to_uint_nonnil.
  - discriminate.
Qed.

Lemma of_uint_pos (p : positive) : Z.of_uint (Pos.to_uint p) = Z.pos p.
Proof.
  unfold Z.of_uint. now rewrite DecimalPos.Unsigned.of_to.
Qed.

Theorem int_str (n : Z) : Py.int (Py.str n) = Ok n.
Proof.
  unfold Py.str. destruct n as [|p|p]; cbn [Z.to_int NilEmpty.string_of_int].
  - reflexivity.
  - rewrite int_uint_string by apply DecimalPos.Unsigned.to_uint_nonnil.
    now rewrite of_uint_pos.
  - unfold Py.int.
    rewrite strip_nonspace by (apply (str_nonspace (Z.neg p))).
    change (n <- Py.int_of_digits (NilEmpty.string_of_uint (Pos.to_uint p)) ;;
            Ok (- n) = Ok (Z.neg p)).
    rewrite int_of_digits_uint by apply DecimalPos.Unsigned.to_uint_nonnil.
    now rewrite of_uint_pos.
Qed.

End Decimal.

(** ** Numeric value *)

Lemma numval_enc_loop_eq (text final_text : string) :
  numval_enc_loop text final_text
  = Ok (final_text ++ concat_map numval_token text).
Proof.
  revert final_text; induction text as [|char rest IH]; intros final_text.
  - simpl. now rewrite append_empty_r.
  - cbn [numval_enc_loop concat_map]. unfold numval_token, numval_code.
    destruct (Py.str_in char letters_upper) eqn:Hu.
    + rewrite (str_index_pos _ _ Hu). cbn [bind].
      now rewrite IH, !append_assoc.
    + destruct (Ascii.eqb char " "); rewrite IH.
      * now rewrite !append_assoc.
      * reflexivity.
Qed.

Lemma numval_logic_enc_eq (T : string) :
  numval_logic_enc (VStr T) = Ok (concat_map numval_token (Py.upper T)).
Proof. unfold numval_logic_enc; simpl. apply numval_enc_loop_eq. Qed.

Lemma split_from_nonspace (d rest cur : string) :
  Py.str_forallb nonspace d = true ->
  Py.split_from (d ++ rest) cur = Py.split_from rest (cur ++ d).
Proof.
  revert cur; induction d as [|a d IH]; intros cur H.
  - simpl. now rewrite append_empty_r.
  - cbn [Py.str_forallb] in H. apply andb_true_iff in H as [Ha Hd].
    unfold nonspace in Ha. apply negb_true_iff in Ha.
    cbn [append Py.split_from]. rewrite Ha, (IH _ Hd), append_assoc.
    reflexivity.
Qed.

Lemma split_from_token (d rest : string) :
  d <> EmptyString ->
  Py.str_forallb nonspace d = true ->
  Py.split_from ((d ++ " ") ++ rest) EmptyString = d :: Py.split_from rest EmptyString.
Proof.
  intros Hne H. rewrite append_assoc, (split_from_nonspace _ _ _ H).
  cbn [append]. destruct d; [congruence | reflexivity].
Qed.

Lemma split_tokens (u : string) :
  Py.split (concat_map numval_token u) = map Py.str (numval_codes u).
Proof.
  unfold Py.split. induction u as [|a u IH]; [reflexivity|].
  cbn [concat_map numval_codes]. unfold numval_token at 1.
  destruct (numval_code a) as [n|].
  - rewrite split_from_token by (auto using str_nonempty, str_nonspace).
    cbn [map]. now rewrite IH.
  - exact IH.
Qed.

Lemma mapM_int_str (l : list Z) : mapM Py.int (map Py.str l) = Ok l.
Proof.
  induction l as [|n l IH]; [reflexivity|].
  cbn [map mapM]. rewrite int_str. cbn [bind]. now rewrite IH.
Qed.

Lemma numval_dec_loop_codes (u final_text : string) :
  numval_dec_loop (numval_codes u) final_text
  = Ok (final_text
        ++ str_filter (fun c => Py.str_in c letters_upper || Ascii.eqb c " ") u).
Proof.
  revert final_text; induction u as [|a u IH]; intros final_text.
  - simpl. now rewrite append_empty_r.
  - cbn [numval_codes str_filter]. unfold numval_code.
    destruct (Py.str_in a letters_upper) eqn:Hu; cbn [orb].
    + cbn [numval_dec_loop].
      replace (Z.of_nat (pos letters_upper a) + 1 =? 0) with false
        by (symmetry; apply Z.eqb_neq; lia).
      cbn [negb].
      replace (Z.of_nat (pos letters_upper a) + 1 - 1)
        with (Z.of_nat (pos letters_upper a)) by lia.
      rewrite getitem_nat by (now apply pos_lt).
      cbn [bind]. rewrite IH, push_append.
      unfold char_at. now rewrite (get_pos _ _ Hu).
    + destruct (Ascii.eqb a " ") eqn:Hs.
      * apply Ascii.eqb_eq in Hs. subst a.
        cbn [numval_dec_loop Z.eqb negb]. rewrite IH, append_assoc.
        reflexivity.
      * apply IH.
Qed.

Lemma numval_logic_dec_enc (u : string) :
  numval_logic_dec (VStr (concat_map numval_token u))
  = Ok (str_filter (fun c => Py.str_in c letters_upper || Ascii.eqb c " ") u).
Proof.
  unfold numval_logic_dec. cbn [str_method bind].
  rewrite split_tokens, mapM_int_str. cbn [bind].
  now rewrite numval_dec_loop_codes.
Qed.

Lemma str_in_append (c : ascii) (a b : string) :
  Py.str_in c (a ++ b) = Py.str_in c a || Py.str_in c b.
Proof.
  induction a as [|x a IH]; [reflexivity|].
  cbn [append Py.str_in]. now rewrite IH, orb_assoc.
Qed.

Lemma upper_chars_not_lower (a c : ascii) :
  Py.str_in c (Py.upper_chars a) = true ->
  Py.str_in c letters_lower = false.
Proof.
  destruct a as [[|] [|] [|] [|] [|] [|] [|] [|]];
    vm_compute Py.upper_chars; cbn [Py.str_in]; rewrite !orb_false_r;
    intros H; try apply orb_true_iff in H as [H|H];
    apply Ascii.eqb_eq in H; subst c; reflexivity.
Qed.

(** No small letter of [a-z] is left in an uppercased text. *)
Lemma upper_not_lower_letter (T : string) (c : ascii) :
  Py.str_in c (Py.upper T) = true -> Py.str_in c letters_lower = false.
Proof.
  induction T as [|a T IH]; [discriminate|].
  cbn [Py.upper]. rewrite str_in_append, orb_true_iff.
  intros [H|H]; [now apply (upper_chars_not_lower a) | now apply IH].
Qed.

Lemma str_filter_ext_in (p q : ascii -> bool) (s : string) :
  (forall c, Py.str_in c s = true -> p c = q c) ->
  str_filter p s = str_filter q s.
Proof.
  induction s as [|a s IH]; intros H; [reflexivity|].
  cbn [str_filter]. rewrite (H a) by (cbn [Py.str_in]; now rewrite Ascii.eqb_refl).
  rewrite IH; [reflexivity|].
  intros c Hc. apply H. cbn [Py.str_in]. rewrite Hc. apply orb_true_r.
Qed.

(** In an uppercased text the letters are the capitals [A-Z]. *)
Lemma letter_or_space_upper (T : string) :
  str_filter letter_or_space (Py.upper T)
  = str_filter (fun c => Py.str_in c letters_upper || Ascii.eqb c " ")
      (Py.upper T).
Proof.
  apply str_filter_ext_in. intros c Hc.
  unfold letter_or_space, is_alpha.
  now rewrite (upper_not_lower_letter T c Hc).
Qed.

(** C5. For every text [T], numeric-value encrypt prints one line [E],
    and numeric-value decrypt of [E] prints [T] in upper case without the
    characters that are neither letters (of the 26-letter alphabet) nor
    spaces. *)
Theorem numval_decrypt_encrypt (T : string) :
  exists E,
    numval (VStr T) "encrypt" = Ok [E]
    /\ numval (VStr E) "decrypt"
       = Ok [str_filter letter_or_space (Py.upper T)].
Proof.
  exists (concat_map numval_token (Py.upper T)). split.
  - change (numval (VStr T) "encrypt")
      with (r <- numval_logic_enc (VStr T) ;; Ok [r]).
    now rewrite numval_logic_enc_eq.
  - change (numval (VStr (concat_map numval_token (Py.upper T))) "decrypt")
      with (r <- numval_logic_dec
                   (VStr (concat_map numval_token (Py.upper T))) ;; Ok [r]).
    rewrite numval_logic_dec_enc. cbn [bind].
    now rewrite letter_or_space_upper.
Qed.

(** C8. For every text [T], numeric-value encrypt prints the
    concatenation, over the characters of [T] in upper case, of: the decimal
    notation of [j + 1] followed by a space for the letter at index [j] of
    the alphabet; "0 " for a space; nothing for any other character.  On
    "CAB " the output is "3 1 2 0 ". *)
Theorem numval_encrypt_tokens (T : string) :
  (exists out,
     numval (VStr T) "encrypt" = Ok [out]
     /\ numval_logic_enc (VStr T) = Ok out
     /\ out = concat_map numval_token (Py.upper T))
  /\ (forall c j, String.get j letters_upper = Some c ->
        numval_token c = Py.str (Z.of_nat j + 1) ++ " ")
  /\ numval_token " " = "0 "
  /\ (forall c, c <> " "%char ->
        (forall j, String.get j letters_upper <> Some c) ->
        numval_token c = EmptyString)
  /\ numval_logic_enc (VStr "CAB ") = Ok "3 1 2 0 ".
Proof.
  split; [|split; [|split; [|split]]].
  - exists (concat_map numval_token (Py.upper T)).
    split; [|split; [apply numval_logic_enc_eq | reflexivity]].
    change (numval (VStr T) "encrypt")
      with (r <- numval_logic_enc (VStr T) ;; Ok [r]).
    now rewrite numval_logic_enc_eq.
  - intros c j Hj. unfold numval_token, numval_code.
    rewrite (get_str_in _ _ _ Hj), (pos_get _ _ _ letters_upper_nodup Hj).
    reflexivity.
  - reflexivity.
  - intros c Hc Hj. unfold numval_token, numval_code.
    destruct (Py.str_in c letters_upper) eqn:Hu.
    { exfalso. exact (Hj _ (get_pos _ _ Hu)). }
    destruct (Ascii.eqb c " ") eqn:Hs; [|reflexivity].
    apply Ascii.eqb_eq in Hs. congruence.
  - reflexivity.
Qed.

Lemma split_single (d : string) :
  d <> EmptyString -> Py.str_forallb nonspace d = true -> Py.split d = [d].
Proof.
  intros Hne H. unfold Py.split.
  rewrite <- (append_empty_r d) at 1.
  rewrite (split_from_nonspace _ _ _ H). cbn [append Py.split_from].
  destruct d; [congruence | reflexivity].
Qed.

Lemma numval_logic_dec_single (n : Z) :
  numval_logic_dec (VStr (Py.str n)) = numval_dec_loop [n] EmptyString.
Proof.
  unfold numval_logic_dec. cbn [str_method bind].
  rewrite split_single by (auto using str_nonempty, str_nonspace).
  cbn [mapM]. now rewrite int_str.
Qed.

Lemma numval_dec_negative (n : Z) (rest : list Z) (final_text : string) :
  -25 <= n <= -1 ->
  numval_dec_loop (n :: rest) final_text
  = numval_dec_loop rest
      (push final_text (char_at letters_upper (Z.to_nat ((n - 1) mod 26)))).
Proof.
  intros H. cbn [numval_dec_loop].
  replace (n =? 0) with false by (symmetry; apply Z.eqb_neq; lia).
  cbn [negb].
  rewrite getitem_negative by (rewrite letters_upper_length; lia).
  cbn [bind]. rewrite letters_upper_length.
  replace ((n - 1) mod 26) with (n - 1 + Z.of_nat 26); [reflexivity|].
  rewrite <- (Z_mod_plus_full (n - 1) 1 26).
  symmetry. rewrite Z.mod_small; lia.
Qed.

Lemma numval_dec_too_large (n : Z) (rest : list Z) (final_text : string) :
  26 < n -> numval_dec_loop (n :: rest) final_text = Raise IndexError.
Proof.
  intros H. cbn [numval_dec_loop].
  replace (n =? 0) with false by (symmetry; apply Z.eqb_neq; lia).
  cbn [negb].
  rewrite getitem_too_large by (rewrite letters_upper_length; lia).
  reflexivity.
Qed.

(** C10. A token [n] of numeric-value decrypt with [-25 <= n <= -1] does
    not fail: the letter at index [(n - 1) mod 26] of the uppercase alphabet
    is appended and decoding goes on (the token -1 gives "Y"); a token above
    26 ends decoding with [IndexError]; neither outcome is a usage error. *)
Theorem numval_decrypt_token_range (n : Z) :
  (-25 <= n <= -1 ->
     exists c,
       String.get (Z.to_nat ((n - 1) mod 26)) letters_upper = Some c
       /\ (forall rest final_text,
             numval_dec_loop (n :: rest) final_text
             = numval_dec_loop rest (push final_text c))
       /\ numval_logic_dec (VStr (Py.str n)) = Ok (String c EmptyString)
       /\ numval (VStr (Py.str n)) "decrypt" = Ok [String c EmptyString]
       /\ ~ usage_error (numval (VStr (Py.str n)) "decrypt"))
  /\ (26 < n ->
        (forall rest final_text,
           numval_dec_loop (n :: rest) final_text = Raise IndexError)
        /\ numval_logic_dec (VStr (Py.str n)) = Raise IndexError
        /\ numval (VStr (Py.str n)) "decrypt" = Raise IndexError
        /\ ~ usage_error (numval (VStr (Py.str n)) "decrypt"))
  /\ numval (VStr "-1") "decrypt" = Ok ["Y"].
Proof.
  split; [|split; [|reflexivity]].
  - intros H. exists (char_at letters_upper (Z.to_nat ((n - 1) mod 26))).
    assert (D : numval_logic_dec (VStr (Py.str n))
                = Ok (String (char_at letters_upper
                                (Z.to_nat ((n - 1) mod 26))) EmptyString)).
    { now rewrite numval_logic_dec_single, numval_dec_negative. }
    assert (N : numval (VStr (Py.str n)) "decrypt"
                = Ok [String (char_at letters_upper
                                (Z.to_nat ((n - 1) mod 26))) EmptyString]).
    { change (numval (VStr (Py.str n)) "decrypt")
        with (r <- numval_logic_dec (VStr (Py.str n)) ;; Ok [r]).
      now rewrite D. }
    split; [|split; [|split; [exact D | split; [exact N|]]]].
    + apply get_char_at. rewrite letters_upper_length.
      pose proof (Z.mod_pos_bound (n - 1) 26). lia.
    + intros rest final_text. now apply numval_dec_negative.
    + rewrite N. intros [msg Hmsg]. discriminate Hmsg.
  - intros H.
    assert (D : numval_logic_dec (VStr (Py.str n)) = Raise IndexError).
    { now rewrite numval_logic_dec_single, numval_dec_too_large. }
    assert (N : numval (VStr (Py.str n)) "decrypt" = Raise IndexError).
    { change (numval (VStr (Py.str n)) "decrypt")
        with (r <- numval_logic_dec (VStr (Py.str n)) ;; Ok [r]).
      now rewrite D. }
    split; [|split; [exact D | split; [exact N|]]].
    + intros rest final_text. now apply numval_dec_too_large.
    + rewrite N. intros [msg Hmsg]. discriminate Hmsg.
Qed.

Lemma numval_decrypt_token_range_witness :
  (-25 <= -1 <= -1 /\ numval (VStr (Py.str (-1))) "decrypt" = Ok ["Y"])
  /\ (26 < 27 /\ numval (VStr (Py.str 27)) "decrypt" = Raise IndexError).
Proof.
  split.
  - split; [lia|].
    destruct (numval_decrypt_token_range (-1)) as [H _].
    destruct H as (c & Hc & _ & _ & Hn & _); [lia|].
    injection Hc as <-. exact Hn.
  - split; [lia|].
    destruct (numval_decrypt_token_range 27) as (_ & H & _).
    destruct H as (_ & _ & Hn & _); [lia|]. exact Hn.
Defined.

(** The same two outcomes for whole runs of the program. *)
Example numval_decrypt_runs (rnd : nat -> Z) :
  argument_parser (fun _ => None) rnd
    (namespace "numval" "decrypt" (Some "-1") None) = Ok ["Y"]
  /\ argument_parser (fun _ => None) rnd
       (namespace "numval" "decrypt" (Some "1 27") None) = Raise IndexError.
Proof. split; reflexivity. Qed.

(** ** Argument validation *)


Lemma numval_encrypt_run (fs : string -> option string)
  (rnd : nat -> Z) (t : string) (key : option string) :
  argument_parser fs rnd (namespace "numval" "encrypt" (Some t) key)
  = if Py.isdigit (load fs t)
    then Raise (UsageError "-t/--text input must be a string, not a number")
    else numval (VStr (load fs t)) "encrypt".
Proof.
  unfold argument_parser. cbn.
  now destruct (Py.isdigit (load fs t)).
Qed.



(** * Further properties of the ciphers *)

(** ** Rotation: the keys as a group of shifts *)

Section ShiftAlgebra.

Variable alphabet : string.
Hypothesis alphabet_nodup : NoDup (chars alphabet).
Hypothesis alphabet_length : String.length alphabet = 26%nat.

Lemma shift_in_compose (a b : Z) (c : ascii) :
  shift_in alphabet b (shift_in alphabet a c) = shift_in alphabet (a + b) c.
Proof.
  unfold shift_in at 1.
  rewrite (shift_in_pos _ alphabet_nodup alphabet_length).
  unfold shift_in. do 2 f_equal.
  rewrite Zplus_mod_idemp_l. f_equal. lia.
Qed.

Lemma shift_in_mod (k : Z) (c : ascii) :
  shift_in alphabet (k mod 26) c = shift_in alphabet k c.
Proof. unfold shift_in. now rewrite Zplus_mod_idemp_r. Qed.

Lemma shift_in_zero (c : ascii) :
  Py.str_in c alphabet = true -> shift_in alphabet 0 c = c.
Proof.
  intros Hin. unfold shift_in. rewrite Z.add_0_r.
  pose proof (pos_lt _ _ Hin) as Hlt. rewrite alphabet_length in Hlt.
  rewrite Z.mod_small by lia. rewrite Nat2Z.id.
  unfold char_at. now rewrite (get_pos _ _ Hin).
Qed.

Lemma shift_in_fixed (k : Z) (c : ascii) :
  Py.str_in c alphabet = true ->
  shift_in alphabet k c = c -> k mod 26 = 0.
Proof.
  intros Hin Heq.
  pose proof (shift_in_pos _ alphabet_nodup alphabet_length k c) as Hp.
  rewrite Heq in Hp.
  pose proof (pos_lt _ _ Hin) as Hlt. rewrite alphabet_length in Hlt.
  rewrite <- (Z.mod_small (Z.of_nat (pos alphabet c)) 26) in Hp at 1 by lia.
  assert (E : (Z.of_nat (pos alphabet c) + k - Z.of_nat (pos alphabet c)) mod 26
              = 0).
  { rewrite Zminus_mod, <- Hp, Z.sub_diag. reflexivity. }
  rewrite <- E. f_equal. lia.
Qed.

End ShiftAlgebra.

Lemma rot_char_compose (a b : Z) (c : ascii) :
  rot_char b (rot_char a c) = rot_char (a + b) c.
Proof.
  unfold rot_char at 2 3.
  destruct (Py.str_in c letters_lower) eqn:Hl;
    [| destruct (Py.str_in c letters_upper) eqn:Hu].
  - unfold rot_char. rewrite (shift_in_member _ letters_lower_length).
    apply shift_in_compose;
      auto using letters_lower_nodup, letters_lower_length.
  - unfold rot_char.
    rewrite (upper_not_lower _ (shift_in_member _ letters_upper_length a c)).
    rewrite (shift_in_member _ letters_upper_length).
    apply shift_in_compose;
      auto using letters_upper_nodup, letters_upper_length.
  - unfold rot_char. now rewrite Hl, Hu.
Qed.

Lemma rot_char_mod (k : Z) (c : ascii) :
  rot_char (k mod 26) c = rot_char k c.
Proof. unfold rot_char. now rewrite !shift_in_mod. Qed.

Lemma rot_char_zero (c : ascii) : rot_char 0 c = c.
Proof.
  unfold rot_char.
  destruct (Py.str_in c letters_lower) eqn:Hl;
    [| destruct (Py.str_in c letters_upper) eqn:Hu]; auto.
  - apply shift_in_zero; auto using letters_lower_length.
  - apply shift_in_zero; auto using letters_upper_length.
Qed.

Lemma rot_char_fixed (k : Z) (c : ascii) :
  is_alpha c = true -> rot_char k c = c -> k mod 26 = 0.
Proof.
  unfold is_alpha, rot_char. intros Ha.
  destruct (Py.str_in c letters_lower) eqn:Hl.
  - apply shift_in_fixed;
      auto using letters_lower_nodup, letters_lower_length.
  - cbn [orb] in Ha. rewrite Ha.
    apply shift_in_fixed;
      auto using letters_upper_nodup, letters_upper_length.
Qed.

Lemma rot_char_not_alpha (k : Z) (c : ascii) :
  is_alpha c = false -> rot_char k c = c.
Proof.
  unfold is_alpha, rot_char. intros H.
  apply orb_false_iff in H as [-> ->]. reflexivity.
Qed.

(** X1. Encrypting with key [a] and then with key [b] is encrypting once
    with key [a + b], for every text and all integer keys. *)
Theorem rot_logic_compose (T : string) (a b : Z) :
  exists E,
    rot_logic (VStr T) (VInt a) = Ok E
    /\ rot_logic (VStr E) (VInt b) = rot_logic (VStr T) (VInt (a + b)).
Proof.
  exists (Py.str_map (rot_char a) T). split; [apply rot_logic_eq|].
  rewrite !rot_logic_eq, str_map_map. f_equal.
  apply str_map_ext. intros c _. apply rot_char_compose.
Qed.

(** X2. Two keys that are congruent modulo 26 encrypt every text alike. *)
Theorem rot_logic_key_mod_26 (T : string) (k k' : Z) :
  k mod 26 = k' mod 26 ->
  rot_logic (VStr T) (VInt k) = rot_logic (VStr T) (VInt k').
Proof.
  intros H. rewrite !rot_logic_eq. f_equal.
  apply str_map_ext. intros c _.
  now rewrite <- (rot_char_mod k), <- (rot_char_mod k'), H.
Qed.

Lemma rot_logic_key_mod_26_witness :
  3 mod 26 = (-23) mod 26
  /\ rot_logic (VStr "Hello, World!") (VInt 3)
     = rot_logic (VStr "Hello, World!") (VInt (-23)).
Proof.
  split; [reflexivity|].
  apply (rot_logic_key_mod_26 "Hello, World!" 3 (-23)). reflexivity.
Defined.

(** X3. A key that is a multiple of 26 leaves every text unchanged, both
    when encrypting and when decrypting; any other key changes every letter
    of the text. *)
Theorem rot_key_trivial_iff (rnd : nat -> Z) (T : string) (K : Z) :
  (K mod 26 = 0 ->
     rot rnd (VStr T) (VInt K) "encrypt" = Ok [T]
     /\ rot rnd (VStr T) (VInt K) "decrypt" = Ok [T])
  /\ (K mod 26 <> 0 ->
        exists E,
          rot rnd (VStr T) (VInt K) "encrypt" = Ok [E]
          /\ forall n c, String.get n T = Some c -> is_alpha c = true ->
               String.get n E <> Some c).
Proof.
  split.
  - intros H.
    assert (G : forall k, k mod 26 = 0 -> Py.str_map (rot_char k) T = T).
    { intros k Hk. apply str_map_id. intros c _.
      now rewrite <- rot_char_mod, Hk, rot_char_zero. }
    rewrite rot_encrypt_eq, rot_decrypt_eq. split; do 2 f_equal.
    + now apply G.
    + apply G. rewrite Zminus_mod, H. reflexivity.
  - intros H. exists (Py.str_map (rot_char K) T).
    split; [apply rot_encrypt_eq|].
    intros n c Hn Ha. rewrite get_str_map, Hn. cbn [option_map].
    intros [= Hc]. apply H. now apply (rot_char_fixed K c).
Qed.

Lemma rot_key_trivial_iff_witness :
  (26 mod 26 = 0
   /\ rot (fun _ => 0) (VStr "Hello") (VInt 26) "encrypt" = Ok ["Hello"])
  /\ (1 mod 26 <> 0
      /\ exists E,
           rot (fun _ => 0) (VStr "Hello") (VInt 1) "encrypt" = Ok [E]
           /\ String.get 0 E <> Some "H"%char).
Proof.
  split.
  - split; [reflexivity|].
    apply (rot_key_trivial_iff (fun _ => 0) "Hello" 26). reflexivity.
  - split; [discriminate|].
    destruct (rot_key_trivial_iff (fun _ => 0) "Hello" 1) as [_ H].
    destruct H as (E & HE & Hn); [discriminate|].
    exists E. split; [exact HE|].
    apply (Hn 0%nat "H"%char); reflexivity.
Defined.

(** ** Rotation: bruteforce, generate and badly typed arguments *)

Lemma rot_bruteforce_loop_eq (T : string) (n : nat) :
  forall (i : Z) (out : list string),
    rot_bruteforce_loop (VStr T) n i out
    = Ok (out ++ map (fun j => bruteforce_line T (i + Z.of_nat j)) (seq 0 n))%list.
Proof.
  induction n as [|n IH]; intros i out.
  - cbn [rot_bruteforce_loop seq map]. now rewrite app_nil_r.
  - cbn [rot_bruteforce_loop]. rewrite rot_logic_eq. cbn [bind].
    rewrite IH. cbn [seq map]. rewrite <- List.app_assoc.
    do 2 f_equal. cbn [Z.of_nat Datatypes.app]. rewrite Z.add_0_r.
    unfold bruteforce_line at 2.
    rewrite <- seq_shift, map_map. f_equal.
    apply map_ext. intros j. f_equal. lia.
Qed.

Lemma rot_bruteforce_eq (rnd : nat -> Z) (T : string) (key : value) :
  rot rnd (VStr T) key "bruteforce"
  = Ok (map (fun j => bruteforce_line T (Z.of_nat j)) (seq 0 26)).
Proof.
  change (rot rnd (VStr T) key "bruteforce")
    with (rot_bruteforce_loop (VStr T) 26 0 []).
  now rewrite rot_bruteforce_loop_eq.
Qed.

Lemma bruteforce_nth (T : string) (i : nat) :
  (i < 26)%nat ->
  nth_error (map (fun j => bruteforce_line T (Z.of_nat j)) (seq 0 26)) i
  = Some (bruteforce_line T (Z.of_nat i)).
Proof.
  intros H. rewrite nth_error_map, nth_error_seq.
  replace (i <? 26)%nat with true by (symmetry; now apply Nat.ltb_lt).
  reflexivity.
Qed.

(** X4. For every text, and whatever is passed as key, bruteforce prints
    exactly 26 lines, and line [i] is "ROT i: " followed by the text
    encrypted with key [i]. *)
Theorem rot_bruteforce_lines (rnd : nat -> Z) (T : string) (key : value) :
  exists lines,
    rot rnd (VStr T) key "bruteforce" = Ok lines
    /\ List.length lines = 26%nat
    /\ forall i, (i < 26)%nat ->
         exists shifted,
           rot_logic (VStr T) (VInt (Z.of_nat i)) = Ok shifted
           /\ nth_error lines i
              = Some ("ROT " ++ Py.str (Z.of_nat i) ++ ": " ++ shifted).
Proof.
  eexists. split; [apply rot_bruteforce_eq|].
  split; [now rewrite length_map, length_seq|].
  intros i Hi. exists (Py.str_map (rot_char (Z.of_nat i)) T).
  split; [apply rot_logic_eq|]. now apply bruteforce_nth.
Qed.

(** X5. Bruteforce always contains the plaintext: if [E] is the
    encryption of [T] under any key [K], then line [(-K) mod 26] of the
    bruteforce listing of [E] carries [T]. *)
Theorem rot_bruteforce_recovers (rnd : nat -> Z) (T : string) (K : Z)
  (key : value) :
  exists E lines,
    rot_logic (VStr T) (VInt K) = Ok E
    /\ rot rnd (VStr E) key "bruteforce" = Ok lines
    /\ nth_error lines (Z.to_nat ((- K) mod 26))
       = Some ("ROT " ++ Py.str ((- K) mod 26) ++ ": " ++ T).
Proof.
  pose proof (Z.mod_pos_bound (- K) 26) as B.
  exists (Py.str_map (rot_char K) T). eexists.
  split; [apply rot_logic_eq|].
  split; [apply rot_bruteforce_eq|].
  rewrite bruteforce_nth by lia.
  unfold bruteforce_line. rewrite Z2Nat.id by lia.
  do 4 f_equal. rewrite str_map_map. apply str_map_id. intros c _.
  rewrite rot_char_compose, <- rot_char_mod, Zplus_mod_idemp_r.
  replace (K + - K) with 0 by lia. apply rot_char_zero.
Qed.

(** X6. Rotation generate prints the decimal notation of one integer
    between 1 and 26, whatever the text and key passed, and each of these
    26 integers is printed for some outcome of the random draw. *)
Theorem rot_generate_range (text key : value) :
  (forall rnd, exists r,
      1 <= r <= 26 /\ rot rnd text key "generate" = Ok [Py.str r])
  /\ (forall r, 1 <= r <= 26 ->
        exists rnd, rot rnd text key "generate" = Ok [Py.str r]).
Proof.
  split.
  - intros rnd. exists (1 + rnd O mod 26). split.
    + pose proof (Z.mod_pos_bound (rnd O) 26). lia.
    + reflexivity.
  - intros r Hr. exists (fun _ => r - 1).
    change (rot (fun _ => r - 1) text key "generate")
      with (Ok [Py.str (1 + (r - 1) mod 26)] : result (list string)).
    rewrite Z.mod_small by lia. do 3 f_equal. lia.
Qed.

Lemma rot_logic_loop_untyped_key (key : value) (T : string) :
  as_int key = Raise TypeError ->
  forall final_text,
    rot_logic_loop T key final_text
    = if Py.str_forallb not_alpha T then Ok (final_text ++ T)
      else Raise TypeError.
Proof.
  intros Hk. induction T as [|char rest IH]; intros final_text.
  - simpl. now rewrite append_empty_r.
  - cbn [rot_logic_loop Py.str_forallb]. unfold not_alpha at 1, is_alpha.
    destruct (Py.str_in char letters_lower) eqn:Hl;
      [| destruct (Py.str_in char letters_upper) eqn:Hu].
    + rewrite (str_index_pos _ _ Hl), Hk. reflexivity.
    + rewrite (str_index_pos _ _ Hu), Hk. reflexivity.
    + cbn [orb negb andb]. rewrite IH, push_append. reflexivity.
Qed.

(** X7. With a key that is not an integer ([None] or a string), rotation
    encrypt returns a text without letters unchanged and raises [TypeError]
    as soon as the text holds a letter; rotation decrypt raises [TypeError]
    for every text. *)
Theorem rot_untyped_key (rnd : nat -> Z) (T : string) (key : value) :
  (forall z, key <> VInt z) ->
  rot rnd (VStr T) key "encrypt"
  = (if Py.str_forallb not_alpha T then Ok [T] else Raise TypeError)
  /\ rot rnd (VStr T) key "decrypt" = Raise TypeError.
Proof.
  intros Hk.
  assert (E : as_int key = Raise TypeError).
  { destruct key as [|z|s]; [reflexivity | now destruct (Hk z) | reflexivity]. }
  split.
  - change (rot rnd (VStr T) key "encrypt")
      with (r <- rot_logic_loop T key EmptyString ;; Ok [r]).
    rewrite (rot_logic_loop_untyped_key key T E).
    now destruct (Py.str_forallb not_alpha T).
  - change (rot rnd (VStr T) key "decrypt")
      with (k <- as_int key ;;
            r <- rot_logic (VStr T) (VInt (0 - k)) ;; Ok [r]).
    now rewrite E.
Qed.

Lemma rot_untyped_key_witness :
  (forall z, VNone <> VInt z)
  /\ rot (fun _ => 0) (VStr "12:30") VNone "encrypt" = Ok ["12:30"]
  /\ rot (fun _ => 0) (VStr "12:30") VNone "decrypt" = Raise TypeError.
Proof.
  split; [discriminate|].
  apply (rot_untyped_key (fun _ => 0) "12:30" VNone). discriminate.
Defined.

Lemma rot_generate_range_witness :
  1 <= 26 <= 26
  /\ exists rnd, rot rnd VNone VNone "generate" = Ok [Py.str 26].
Proof.
  split; [lia|].
  destruct (rot_generate_range VNone VNone) as [_ H]. apply H. lia.
Defined.

(** ** Substitution: the other round trip, and keys of any length *)

Section SubstitutionKeyMore.

Variables key_lower key_upper : string.
Hypothesis key_lower_perm : Permutation (chars key_lower) (chars letters_lower).
Hypothesis key_upper_perm : Permutation (chars key_upper) (chars letters_upper).

Lemma subst_char_inverse_r (c : ascii) :
  subst_enc_char key_lower key_upper (subst_dec_char key_lower key_upper c) = c.
Proof.
  unfold subst_dec_char.
  destruct (Py.str_in c key_lower) eqn:Hl;
    [| destruct (Py.str_in c key_upper) eqn:Hu].
  - assert (G : String.get (pos key_lower c) letters_lower
                = Some (char_at letters_lower (pos key_lower c))).
    { apply get_char_at.
      rewrite letters_lower_length, <- (key_lower_length _ key_lower_perm).
      now apply pos_lt. }
    unfold subst_enc_char.
    rewrite (get_str_in _ _ _ G), (pos_get _ _ _ letters_lower_nodup G).
    unfold char_at. now rewrite (get_pos _ _ Hl).
  - assert (G : String.get (pos key_upper c) letters_upper
                = Some (char_at letters_upper (pos key_upper c))).
    { apply get_char_at.
      rewrite letters_upper_length, <- (key_upper_length _ key_upper_perm).
      now apply pos_lt. }
    unfold subst_enc_char.
    rewrite (upper_not_lower _ (get_str_in _ _ _ G)).
    rewrite (get_str_in _ _ _ G), (pos_get _ _ _ letters_upper_nodup G).
    unfold char_at. now rewrite (get_pos _ _ Hu).
  - unfold subst_enc_char.
    rewrite <- (key_lower_member _ key_lower_perm), Hl.
    rewrite <- (key_upper_member _ key_upper_perm), Hu. reflexivity.
Qed.

End SubstitutionKeyMore.

(** X8. For a key that is a permutation of the 26 letters, substitution
    encrypt also undoes decrypt: decrypting any text and encrypting the
    result gives the text back. *)
Theorem subst_encrypt_decrypt (rnd : nat -> Z) (T P : string) :
  permutation_key P ->
  exists D,
    subst rnd (VStr T) (VStr P) "decrypt" = Ok [D]
    /\ subst rnd (VStr D) (VStr P) "encrypt" = Ok [T].
Proof.
  intros HP.
  assert (Hu : Permutation (chars (Py.upper P)) (chars letters_upper))
    by (now rewrite (permutation_key_upper P HP)).
  pose proof (key_upper_permutation P Hu) as Hl.
  exists (Py.str_map (subst_dec_char (Py.lower P) (Py.upper P)) T). split.
  - change (subst rnd (VStr T) (VStr P) "decrypt")
      with (r <- subst_dec_loop T (Py.lower P) (Py.upper P) EmptyString ;;
            Ok [r]).
    now rewrite (subst_dec_loop_eq _ _ Hl Hu).
  - match goal with
    | |- subst rnd (VStr ?D) _ _ = _ =>
        change (subst rnd (VStr D) (VStr P) "encrypt")
          with (r <- subst_enc_loop D (Py.lower P) (Py.upper P) EmptyString ;;
                Ok [r])
    end.
    rewrite (subst_enc_loop_eq _ _ Hl Hu), str_map_map. cbn [bind append].
    do 2 f_equal. apply str_map_id. intros c _.
    now apply subst_char_inverse_r.
Qed.

Lemma subst_encrypt_decrypt_witness :
  permutation_key "QWERTYUIOPASDFGHJKLZXCVBNM"
  /\ exists D,
       subst (fun _ => 0) (VStr "Hello, World!")
         (VStr "QWERTYUIOPASDFGHJKLZXCVBNM") "decrypt" = Ok [D]
       /\ subst (fun _ => 0) (VStr D)
            (VStr "QWERTYUIOPASDFGHJKLZXCVBNM") "encrypt"
          = Ok ["Hello, World!"].
Proof.
  assert (K : permutation_key "QWERTYUIOPASDFGHJKLZXCVBNM")
    by (apply perm_check_sound; reflexivity).
  split; [exact K|].
  apply (subst_encrypt_decrypt (fun _ => 0) "Hello, World!"
           "QWERTYUIOPASDFGHJKLZXCVBNM" K).
Defined.

Lemma forallb_get (p : ascii -> bool) (s : string) (n : nat) (c : ascii) :
  Py.str_forallb p s = true -> String.get n s = Some c -> p c = true.
Proof.
  revert n; induction s as [|a s IH]; intros n H G.
  - destruct n; discriminate.
  - cbn [Py.str_forallb] in H. apply andb_true_iff in H as [Ha Hs].
    destruct n as [|n]; simpl in G.
    + now injection G as <-.
    + eauto.
Qed.

Lemma forallb_all (p : ascii -> bool) (s : string) :
  (forall n c, String.get n s = Some c -> p c = true) ->
  Py.str_forallb p s = true.
Proof.
  induction s as [|a s IH]; intros H; [reflexivity|].
  cbn [Py.str_forallb]. apply andb_true_iff. split.
  - apply (H O). reflexivity.
  - apply IH. intros n c G. apply (H (S n)). exact G.
Qed.

(** The substitution loop for an arbitrary key. *)
Lemma subst_enc_loop_any_key (key_lower key_upper T : string) :
  forall final_text,
    subst_enc_loop T key_lower key_upper final_text
    = if Py.str_forallb (key_covers key_lower key_upper) T
      then Ok (final_text
               ++ Py.str_map (subst_enc_char key_lower key_upper) T)
      else Raise IndexError.
Proof.
  induction T as [|char rest IH]; intros final_text.
  - simpl. now rewrite append_empty_r.
  - cbn [subst_enc_loop Py.str_forallb Py.str_map].
    unfold key_covers at 1, subst_enc_char at 1.
    destruct (Py.str_in char letters_lower) eqn:Hl;
      [| destruct (Py.str_in char letters_upper) eqn:Hu].
    + rewrite (str_index_pos _ _ Hl). cbn [bind].
      destruct (Nat.ltb_spec (pos letters_lower char) (String.length key_lower)).
      * rewrite getitem_nat by assumption. cbn [bind andb].
        rewrite IH, push_append. reflexivity.
      * rewrite getitem_too_large by lia. reflexivity.
    + rewrite (str_index_pos _ _ Hu). cbn [bind].
      destruct (Nat.ltb_spec (pos letters_upper char) (String.length key_upper)).
      * rewrite getitem_nat by assumption. cbn [bind andb].
        rewrite IH, push_append. reflexivity.
      * rewrite getitem_too_large by lia. reflexivity.
    + cbn [andb]. rewrite IH, push_append. reflexivity.
Qed.

Lemma subst_logic_enc_any_key (T P : string) :
  subst_logic_enc (VStr T) (VStr P)
  = if Py.str_forallb (key_covers (Py.lower P) (Py.upper P)) T
    then Ok (Py.str_map (subst_enc_char (Py.lower P) (Py.upper P)) T)
    else Raise IndexError.
Proof.
  unfold subst_logic_enc. cbn [str_method iter_str bind].
  now rewrite subst_enc_loop_any_key.
Qed.

Lemma upper_length (s : string) :
  (String.length s <= String.length (Py.upper s))%nat.
Proof.
  induction s as [|a s IH]; [apply Nat.le_refl|].
  cbn [Py.upper]. rewrite length_append. unfold Py.upper_chars.
  destruct (Py.code a =? 223); simpl; lia.
Qed.

(** X9. The key is not validated: substitution encrypt raises
    [IndexError] when the text holds a small letter whose index [j] in the
    alphabet is not below the length of [key.lower()], or a capital whose
    index is not below the length of [key.upper()] (so, with an empty key,
    as soon as the text holds a letter). *)
Theorem subst_encrypt_short_key (rnd : nat -> Z) (T P : string)
  (n j : nat) (c : ascii) :
  String.get n T = Some c ->
  (String.get j letters_lower = Some c
   /\ (String.length (Py.lower P) <= j)%nat)
  \/ (String.get j letters_upper = Some c
      /\ (String.length (Py.upper P) <= j)%nat) ->
  subst rnd (VStr T) (VStr P) "encrypt" = Raise IndexError.
Proof.
  intros Hn Hj.
  change (subst rnd (VStr T) (VStr P) "encrypt")
    with (r <- subst_logic_enc (VStr T) (VStr P) ;; Ok [r]).
  rewrite subst_logic_enc_any_key.
  destruct (Py.str_forallb (key_covers (Py.lower P) (Py.upper P)) T) eqn:E;
    [|reflexivity].
  exfalso. pose proof (forallb_get _ _ _ _ E Hn) as Hc.
  unfold key_covers in Hc.
  destruct Hj as [[Hj Hlen]|[Hj Hlen]].
  - rewrite (get_str_in _ _ _ Hj) in Hc.
    rewrite (pos_get _ _ _ letters_lower_nodup Hj) in Hc.
    apply Nat.ltb_lt in Hc. lia.
  - rewrite (upper_not_lower _ (get_str_in _ _ _ Hj)) in Hc.
    rewrite (get_str_in _ _ _ Hj) in Hc.
    rewrite (pos_get _ _ _ letters_upper_nodup Hj) in Hc.
    apply Nat.ltb_lt in Hc. lia.
Qed.

Lemma subst_encrypt_short_key_witness :
  String.get 1 "az" = Some "z"%char
  /\ ((String.get 25 letters_lower = Some "z"%char
       /\ (String.length (Py.lower "QWERTY") <= 25)%nat)
      \/ (String.get 25 letters_upper = Some "z"%char
          /\ (String.length (Py.upper "QWERTY") <= 25)%nat))
  /\ subst (fun _ => 0) (VStr "az") (VStr "QWERTY") "encrypt"
     = Raise IndexError.
Proof.
  split; [reflexivity|]. split; [left; split; [reflexivity | simpl; lia]|].
  apply (subst_encrypt_short_key (fun _ => 0) "az" "QWERTY" 1 25 "z"%char);
    [reflexivity | left; split; [reflexivity | simpl; lia]].
Defined.

(** The two lengths differ for a key with a sharp s (code point 223): the
    one-character key made of it has the capitals "SS", and encrypts "B",
    of index 1, to "S". *)
Example subst_sharp_s_key (rnd : nat -> Z) :
  Py.upper (String (ascii_of_nat 223) EmptyString) = "SS"
  /\ subst rnd (VStr "B") (VStr (String (ascii_of_nat 223) EmptyString))
       "encrypt" = Ok ["S"]
  /\ numval (VStr (String (ascii_of_nat 223) EmptyString)) "encrypt"
     = Ok ["19 19 "].
Proof. repeat split; reflexivity. Qed.

(** X10. Conversely substitution encrypt succeeds, with an output as long
    as the text, whenever every letter of the text has an index below the
    length of the key; whether the key is a permutation, or made of letters
    at all, plays no part. *)
Theorem subst_encrypt_long_enough_key (rnd : nat -> Z) (T P : string) :
  (forall n c j,
      String.get n T = Some c ->
      String.get j letters_lower = Some c
      \/ String.get j letters_upper = Some c ->
      (j < String.length P)%nat) ->
  exists E,
    subst rnd (VStr T) (VStr P) "encrypt" = Ok [E]
    /\ String.length E = String.length T.
Proof.
  intros H.
  exists (Py.str_map (subst_enc_char (Py.lower P) (Py.upper P)) T).
  split; [|apply length_str_map].
  change (subst rnd (VStr T) (VStr P) "encrypt")
    with (r <- subst_logic_enc (VStr T) (VStr P) ;; Ok [r]).
  rewrite subst_logic_enc_any_key.
  rewrite forallb_all; [reflexivity|].
  intros n c Hn. unfold key_covers.
  pose proof (upper_length P) as Hup.
  assert (Hlo : String.length (Py.lower P) = String.length P)
    by apply length_str_map.
  destruct (Py.str_in c letters_lower) eqn:Hl;
    [| destruct (Py.str_in c letters_upper) eqn:Hu]; [| |reflexivity].
  - apply Nat.ltb_lt. rewrite Hlo. apply (H n c); [exact Hn|].
    left. now apply get_pos.
  - apply Nat.ltb_lt. eapply Nat.lt_le_trans; [|exact Hup].
    apply (H n c); [exact Hn|]. right. now apply get_pos.
Qed.

Lemma subst_encrypt_long_enough_key_witness :
  (forall n c j,
      String.get n "cab" = Some c ->
      String.get j letters_lower = Some c
      \/ String.get j letters_upper = Some c ->
      (j < String.length "!!!")%nat)
  /\ exists E,
       subst (fun _ => 0) (VStr "cab") (VStr "!!!") "encrypt" = Ok [E]
       /\ String.length E = String.length "cab".
Proof.
  assert (K : forall n c j,
             String.get n "cab" = Some c ->
             String.get j letters_lower = Some c
             \/ String.get j letters_upper = Some c ->
             (j < String.length "!!!")%nat).
  { intros n c j Hn Hj.
    assert (Hc : c = "c"%char \/ c = "a"%char \/ c = "b"%char).
    { destruct n as [|[|[|n]]]; simpl in Hn;
        [injection Hn as <-; auto .. | discriminate]. }
    assert (Hp : forall s, String.get j s = Some c ->
                           NoDup (chars s) -> j = pos s c).
    { intros s G ND. symmetry. now apply pos_get. }
    destruct Hj as [Hj|Hj].
    - rewrite (Hp _ Hj letters_lower_nodup).
      destruct Hc as [->|[->| ->]]; simpl; lia.
    - apply get_str_in in Hj.
      destruct Hc as [->|[->| ->]]; discriminate Hj. }
  split; [exact K|].
  apply (subst_encrypt_long_enough_key (fun _ => 0) "cab" "!!!" K).
Defined.

(** ** Substitution: the generated keys *)

(** X11. Every key printed by substitution generate works as a key: for
    every outcome of the random draws and every text, encrypting under the
    generated key succeeds and decrypting the result gives the text back. *)
Theorem subst_generated_key_round_trip (rnd : nat -> Z) (text key : value)
  (T : string) :
  exists generated E,
    subst rnd text key "generate" = Ok [generated]
    /\ subst rnd (VStr T) (VStr generated) "encrypt" = Ok [E]
    /\ subst rnd (VStr E) (VStr generated) "decrypt" = Ok [T].
Proof.
  destruct (subst_gen_loop_perm rnd 26 O (chars letters_upper) EmptyString
              eq_refl) as (out & Hout & Hperm).
  cbn [append] in Hout.
  destruct (subst_logic_round_trip T out) as (E & He & Hd).
  { now rewrite (permutation_key_upper out Hperm). }
  exists out, E. split; [|split].
  - change (subst rnd text key "generate")
      with (r <- subst_logic_gen rnd ;; Ok [r]).
    unfold subst_logic_gen. fold (chars letters_upper). now rewrite Hout.
  - change (subst rnd (VStr T) (VStr out) "encrypt")
      with (r <- subst_logic_enc (VStr T) (VStr out) ;; Ok [r]).
    now rewrite He.
  - change (subst rnd (VStr E) (VStr out) "decrypt")
      with (r <- subst_logic_dec (VStr E) (VStr out) ;; Ok [r]).
    now rewrite Hd.
Qed.

Lemma subst_gen_loop_reaches (out : string) :
  forall (letters : list ascii) (final_text : string) (drawn : nat),
    Permutation (chars out) letters ->
    exists choices : list Z,
      forall rnd : nat -> Z,
        (forall i, (i < String.length out)%nat ->
                   rnd (drawn + i)%nat = nth i choices 0) ->
        subst_gen_loop rnd (String.length out) drawn letters final_text
        = Ok (final_text ++ out).
Proof.
  induction out as [|c out IH]; intros letters final_text drawn Hperm.
  - exists []. intros rnd _. simpl. now rewrite append_empty_r.
  - assert (Hin : In c letters).
    { eapply Permutation_in; [exact Hperm | now left]. }
    destruct (In_nth_error _ _ Hin) as [j Hj].
    pose proof (pop_permutation _ _ _ _ Hj) as Hpop.
    assert (Hlt : (j < List.length letters)%nat).
    { apply nth_error_Some. congruence. }
    destruct (IH (firstn j letters ++ skipn (S j) letters)%list
                (push final_text c) (S drawn)) as [choices Hch].
    { apply Permutation_cons_inv with (a := c).
      cbn [chars list_ascii_of_string] in Hperm. fold (chars out) in Hperm.
      now rewrite Hperm. }
    exists (Z.of_nat j :: choices). intros rnd Hrnd.
    cbn [String.length subst_gen_loop].
    pose proof (Hrnd O ltac:(simpl; lia)) as H0.
    rewrite Nat.add_0_r in H0. cbn [nth] in H0. rewrite H0.
    unfold randint.
    replace (Z.of_nat (List.length letters) - 1 <? 0) with false
      by (symmetry; apply Z.ltb_ge; lia).
    cbn [bind].
    replace (0 + Z.of_nat j mod (Z.of_nat (List.length letters) - 1 - 0 + 1))
      with (Z.of_nat j) by (rewrite Z.mod_small; lia).
    unfold list_getitem, list_pop, list_position.
    replace (Z.of_nat j <? 0) with false by (symmetry; apply Z.ltb_ge; lia).
    replace (0 <=? Z.of_nat j) with true by (symmetry; apply Z.leb_le; lia).
    replace (Z.of_nat j <? Z.of_nat (List.length letters)) with true
      by (symmetry; apply Z.ltb_lt; lia).
    cbn [andb bind]. rewrite Nat2Z.id, Hj. cbn [bind].
    rewrite Hch.
    + now rewrite push_append.
    + intros i Hi. specialize (Hrnd (S i) ltac:(simpl; lia)).
      cbn [nth] in Hrnd. rewrite <- Hrnd. f_equal. lia.
Qed.

(** X12. Substitution generate reaches the whole key space: every
    permutation of the 26 uppercase letters is printed for some outcome of
    the random draws. *)
Theorem subst_generate_reaches_every_key (text key : value) (P : string) :
  permutation_key P ->
  exists rnd, subst rnd text key "generate" = Ok [P].
Proof.
  intros HP.
  destruct (subst_gen_loop_reaches P (chars letters_upper) EmptyString O HP)
    as [choices Hch].
  exists (fun i => nth i choices 0).
  change (subst (fun i => nth i choices 0) text key "generate")
    with (r <- subst_gen_loop (fun i => nth i choices 0) 26 O
                 (chars letters_upper) EmptyString ;; Ok [r]).
  assert (L : String.length P = 26%nat).
  { rewrite <- length_chars, (Permutation_length HP). reflexivity. }
  rewrite <- L, Hch; [reflexivity|]. intros i _. reflexivity.
Qed.

Lemma subst_generate_reaches_every_key_witness :
  permutation_key "QWERTYUIOPASDFGHJKLZXCVBNM"
  /\ exists rnd,
       subst rnd VNone VNone "generate" = Ok ["QWERTYUIOPASDFGHJKLZXCVBNM"].
Proof.
  assert (K : permutation_key "QWERTYUIOPASDFGHJKLZXCVBNM")
    by (apply perm_check_sound; reflexivity).
  split; [exact K|].
  apply (subst_generate_reaches_every_key VNone VNone
           "QWERTYUIOPASDFGHJKLZXCVBNM" K).
Defined.

(** ** Atbash among the substitutions *)

Lemma reversed_alphabet_lower :
  Permutation (chars (Py.lower "ZYXWVUTSRQPONMLKJIHGFEDCBA")) (chars letters_lower).
Proof. apply perm_check_sound. reflexivity. Qed.

Lemma reversed_alphabet_upper :
  Permutation (chars (Py.upper "ZYXWVUTSRQPONMLKJIHGFEDCBA")) (chars letters_upper).
Proof. apply perm_check_sound. reflexivity. Qed.

Lemma atbash_char_as_subst (c : ascii) :
  subst_enc_char (Py.lower "ZYXWVUTSRQPONMLKJIHGFEDCBA")
    (Py.upper "ZYXWVUTSRQPONMLKJIHGFEDCBA") c = atbash_char c
  /\ subst_dec_char (Py.lower "ZYXWVUTSRQPONMLKJIHGFEDCBA")
       (Py.upper "ZYXWVUTSRQPONMLKJIHGFEDCBA") c = atbash_char c.
Proof.
  destruct c as [[|] [|] [|] [|] [|] [|] [|] [|]];
    split; vm_compute; reflexivity.
Qed.

(** X13. Atbash is the substitution cipher under the key
    "ZYXWVUTSRQPONMLKJIHGFEDCBA": for every text, Atbash prints what
    substitution encrypt, and also what substitution decrypt, prints under
    this key. *)
Theorem atbash_is_reversed_substitution (rnd : nat -> Z) (T : string) :
  atbash (VStr T) "encrypt"
  = subst rnd (VStr T) (VStr "ZYXWVUTSRQPONMLKJIHGFEDCBA") "encrypt"
  /\ atbash (VStr T) "decrypt"
     = subst rnd (VStr T) (VStr "ZYXWVUTSRQPONMLKJIHGFEDCBA") "decrypt".
Proof.
  rewrite atbash_encrypt_eq, atbash_decrypt_eq. split.
  - change (subst rnd (VStr T) (VStr "ZYXWVUTSRQPONMLKJIHGFEDCBA") "encrypt")
      with (r <- subst_enc_loop T (Py.lower "ZYXWVUTSRQPONMLKJIHGFEDCBA")
                   (Py.upper "ZYXWVUTSRQPONMLKJIHGFEDCBA") EmptyString ;;
            Ok [r]).
    rewrite (subst_enc_loop_eq _ _ reversed_alphabet_lower
               reversed_alphabet_upper).
    cbn [bind append]. do 2 f_equal. apply str_map_ext. intros c _.
    symmetry. apply atbash_char_as_subst.
  - change (subst rnd (VStr T) (VStr "ZYXWVUTSRQPONMLKJIHGFEDCBA") "decrypt")
      with (r <- subst_dec_loop T (Py.lower "ZYXWVUTSRQPONMLKJIHGFEDCBA")
                   (Py.upper "ZYXWVUTSRQPONMLKJIHGFEDCBA") EmptyString ;;
            Ok [r]).
    rewrite (subst_dec_loop_eq _ _ reversed_alphabet_lower
               reversed_alphabet_upper).
    cbn [bind append]. do 2 f_equal. apply str_map_ext. intros c _.
    symmetry. apply atbash_char_as_subst.
Qed.

Lemma atbash_char_fixed (c : ascii) :
  Ascii.eqb (atbash_char c) c = negb (is_alpha c).
Proof. destruct c as [[|] [|] [|] [|] [|] [|] [|] [|]]; reflexivity. Qed.

(** X14. Atbash changes every letter and nothing else: in the output, a
    position carries the character of the text exactly when that character
    is not a letter. *)
Theorem atbash_changes_exactly_letters (T : string) :
  exists out,
    atbash (VStr T) "encrypt" = Ok [out]
    /\ forall n c, String.get n T = Some c ->
         (String.get n out = Some c <-> is_alpha c = false).
Proof.
  exists (Py.str_map atbash_char T). split; [apply atbash_encrypt_eq|].
  intros n c Hn. rewrite get_str_map, Hn. cbn [option_map].
  pose proof (atbash_char_fixed c) as H. split.
  - intros [= E]. rewrite E, Ascii.eqb_refl in H.
    now destruct (is_alpha c).
  - intros E. rewrite E in H. cbn [negb] in H.
    apply Ascii.eqb_eq in H. now rewrite H.
Qed.

(** ** Numeric value: malformed and out-of-range tokens *)

Lemma int_of_digits_raises (s : string) (e : PyError) :
  Py.int_of_digits s = Raise e -> e = ValueError.
Proof.
  unfold Py.int_of_digits.
  destruct (Py.literal_digits s false) as [ds|]; [|now intros [= <-]].
  destruct (NilEmpty.uint_of_string ds); [discriminate | now intros [= <-]].
Qed.

Lemma int_raises (s : string) (e : PyError) :
  Py.int s = Raise e -> e = ValueError.
Proof.
  unfold Py.int. destruct (Py.strip s) as [|a s'].
  - apply int_of_digits_raises.
  - destruct a as [[|] [|] [|] [|] [|] [|] [|] [|]];
      try apply int_of_digits_raises.
    destruct (Py.int_of_digits s') as [n|e'] eqn:E; cbn [bind].
    + discriminate.
    + intros [= <-]. now apply int_of_digits_raises in E.
Qed.

Lemma mapM_int_raises (l : list string) (tok : string) :
  In tok l -> Py.int tok = Raise ValueError ->
  mapM Py.int l = Raise ValueError.
Proof.
  induction l as [|a l IH]; intros Hin Htok; [destruct Hin|].
  cbn [mapM]. destruct (Py.int a) as [n|e] eqn:E; cbn [bind].
  - destruct Hin as [->|Hin]; [congruence|].
    now rewrite (IH Hin Htok).
  - now rewrite (int_raises _ _ E).
Qed.

(** X15. Numeric-value decrypt converts every token before it decodes
    any: if one whitespace-separated token of the text is not an integer
    literal, the run ends with [ValueError], wherever the token stands and
    whatever the other tokens are. *)
Theorem numval_decrypt_malformed_token (s tok : string) :
  In tok (Py.split s) ->
  Py.int tok = Raise ValueError ->
  numval (VStr s) "decrypt" = Raise ValueError.
Proof.
  intros Hin Htok.
  change (numval (VStr s) "decrypt")
    with (r <- (tokens <- mapM Py.int (Py.split s) ;;
                numval_dec_loop tokens EmptyString) ;; Ok [r]).
  now rewrite (mapM_int_raises _ _ Hin Htok).
Qed.

Lemma numval_decrypt_malformed_token_witness :
  In "x" (Py.split "1 27 x")
  /\ Py.int "x" = Raise ValueError
  /\ numval (VStr "1 27 x") "decrypt" = Raise ValueError.
Proof.
  split; [vm_compute; tauto|]. split; [reflexivity|].
  apply (numval_decrypt_malformed_token "1 27 x" "x");
    [vm_compute; tauto | reflexivity].
Defined.

Lemma getitem_too_small (s : string) (z : Z) :
  z < - Z.of_nat (String.length s) -> Py.getitem s z = Raise IndexError.
Proof.
  intros H. unfold Py.getitem.
  replace (z <? 0) with true by (symmetry; apply Z.ltb_lt; lia).
  replace (0 <=? z + Z.of_nat (String.length s)) with false
    by (symmetry; apply Z.leb_gt; lia).
  reflexivity.
Qed.

Lemma numval_dec_step (n : Z) (rest : list Z) (final_text : string) :
  -25 <= n <= 26 ->
  exists c,
    numval_dec_loop (n :: rest) final_text
    = numval_dec_loop rest (push final_text c).
Proof.
  intros H.
  destruct (Z.eq_dec n 0) as [->|Hn0]; [now exists " "%char|].
  destruct (Z_lt_le_dec n 0) as [Hneg|Hpos].
  - eexists. apply numval_dec_negative. lia.
  - exists (char_at letters_upper (Z.to_nat (n - 1))).
    cbn [numval_dec_loop].
    replace (n =? 0) with false by (symmetry; apply Z.eqb_neq; lia).
    cbn [negb].
    rewrite getitem_nonneg by (rewrite letters_upper_length; lia).
    reflexivity.
Qed.

Lemma numval_dec_loop_in_range (tokens : list Z) :
  Forall (fun n => -25 <= n <= 26) tokens ->
  forall final_text,
    exists out,
      numval_dec_loop tokens final_text = Ok (final_text ++ out)
      /\ String.length out = List.length tokens.
Proof.
  induction 1 as [|n rest Hn _ IH]; intros final_text.
  - exists EmptyString. split; [|reflexivity].
    simpl. now rewrite append_empty_r.
  - destruct (numval_dec_step n rest final_text Hn) as [c Hc].
    destruct (IH (push final_text c)) as (out & Hout & Hlen).
    exists (String c out). split.
    + now rewrite Hc, Hout, push_append.
    + simpl. now rewrite Hlen.
Qed.

Lemma numval_dec_loop_out_of_range (tokens : list Z) :
  Exists (fun n => n < -25 \/ 26 < n) tokens ->
  forall final_text, numval_dec_loop tokens final_text = Raise IndexError.
Proof.
  induction 1 as [n rest Hn | n rest _ IH]; intros final_text.
  - destruct Hn as [Hn|Hn]; [|now apply numval_dec_too_large].
    cbn [numval_dec_loop].
    replace (n =? 0) with false by (symmetry; apply Z.eqb_neq; lia).
    cbn [negb].
    rewrite getitem_too_small by (rewrite letters_upper_length; lia).
    reflexivity.
  - destruct (Z_le_dec (-25) n) as [Hlo|Hlo];
      [destruct (Z_le_dec n 26) as [Hhi|Hhi]|].
    + destruct (numval_dec_step n rest final_text (conj Hlo Hhi)) as [c ->].
      apply IH.
    + apply numval_dec_too_large. lia.
    + cbn [numval_dec_loop].
      replace (n =? 0) with false by (symmetry; apply Z.eqb_neq; lia).
      cbn [negb].
      rewrite getitem_too_small by (rewrite letters_upper_length; lia).
      reflexivity.
Qed.

(** X16. When every token of the text is an integer literal, numeric-value
    decrypt succeeds exactly on the tokens from -25 to 26: if all tokens lie
    in this range it prints one character per token, and if one token lies
    outside it the run ends with [IndexError]. *)
Theorem numval_decrypt_token_bounds (s : string) (tokens : list Z) :
  mapM Py.int (Py.split s) = Ok tokens ->
  (Forall (fun n => -25 <= n <= 26) tokens ->
     exists out,
       numval (VStr s) "decrypt" = Ok [out]
       /\ String.length out = List.length tokens)
  /\ (Exists (fun n => n < -25 \/ 26 < n) tokens ->
        numval (VStr s) "decrypt" = Raise IndexError).
Proof.
  intros Htok.
  change (numval (VStr s) "decrypt")
    with (r <- (tokens <- mapM Py.int (Py.split s) ;;
                numval_dec_loop tokens EmptyString) ;; Ok [r]).
  rewrite Htok. cbn [bind]. split; intros H.
  - destruct (numval_dec_loop_in_range tokens H EmptyString)
      as (out & Hout & Hlen).
    exists out. now rewrite Hout.
  - now rewrite (numval_dec_loop_out_of_range tokens H).
Qed.

Lemma numval_decrypt_token_bounds_witness :
  mapM Py.int (Py.split "8 9 0 -25 26") = Ok [8; 9; 0; -25; 26]
  /\ (exists out,
        numval (VStr "8 9 0 -25 26") "decrypt" = Ok [out]
        /\ String.length out = 5%nat)
  /\ mapM Py.int (Py.split "8 -26") = Ok [8; -26]
  /\ numval (VStr "8 -26") "decrypt" = Raise IndexError.
Proof.
  split; [reflexivity|]. split.
  - destruct (numval_decrypt_token_bounds "8 9 0 -25 26" [8; 9; 0; -25; 26]
                eq_refl) as [H _].
    apply H. repeat constructor; lia.
  - split; [reflexivity|].
    destruct (numval_decrypt_token_bounds "8 -26" [8; -26] eq_refl)
      as [_ H].
    apply H. right. left. lia.
Defined.

Lemma numval_char_token (n : Z) :
  0 <= n <= 26 ->
  Py.upper_chars (numval_char n) = String (numval_char n) EmptyString
  /\ numval_token (numval_char n) = Py.str n ++ " ".
Proof.
  intros H. rewrite <- (Z2Nat.id n) by lia.
  assert (Hm : (Z.to_nat n < 27)%nat) by lia.
  revert Hm. generalize (Z.to_nat n) as m. intros m Hm.
  do 27 (destruct m as [|m]; [split; reflexivity|]). lia.
Qed.

Lemma numval_dec_loop_chars (tokens : list Z) :
  Forall (fun n => 0 <= n <= 26) tokens ->
  forall final_text,
    numval_dec_loop tokens final_text
    = Ok (final_text ++ string_of_list_ascii (map numval_char tokens)).
Proof.
  induction 1 as [|n rest Hn _ IH]; intros final_text.
  - simpl. now rewrite append_empty_r.
  - cbn [numval_dec_loop map string_of_list_ascii]. unfold numval_char at 1.
    destruct (n =? 0) eqn:E; cbn [negb].
    + rewrite IH, append_assoc. reflexivity.
    + apply Z.eqb_neq in E.
      rewrite getitem_nonneg by (rewrite letters_upper_length; lia).
      cbn [bind]. rewrite IH, push_append. reflexivity.
Qed.

Lemma numval_enc_chars (tokens : list Z) :
  Forall (fun n => 0 <= n <= 26) tokens ->
  numval_logic_enc (VStr (string_of_list_ascii (map numval_char tokens)))
  = Ok (numval_text tokens).
Proof.
  intros H. rewrite numval_logic_enc_eq. f_equal.
  induction H as [|n rest Hn _ IH]; [reflexivity|].
  destruct (numval_char_token n Hn) as [Hu Ht].
  cbn [map string_of_list_ascii Py.upper]. rewrite Hu.
  cbn [append concat_map numval_text]. rewrite Ht. f_equal. exact IH.
Qed.

(** X17. Numeric-value encrypt undoes decrypt up to spacing: when the
    tokens of the text are integer literals from 0 to 26, decrypting the
    text and encrypting the result prints the same tokens in plain decimal
    notation, each followed by one space. *)
Theorem numval_encrypt_decrypt (s : string) (tokens : list Z) :
  mapM Py.int (Py.split s) = Ok tokens ->
  Forall (fun n => 0 <= n <= 26) tokens ->
  exists D,
    numval (VStr s) "decrypt" = Ok [D]
    /\ numval (VStr D) "encrypt" = Ok [numval_text tokens].
Proof.
  intros Htok H.
  exists (string_of_list_ascii (map numval_char tokens)). split.
  - change (numval (VStr s) "decrypt")
      with (r <- (tokens <- mapM Py.int (Py.split s) ;;
                  numval_dec_loop tokens EmptyString) ;; Ok [r]).
    rewrite Htok. cbn [bind]. now rewrite numval_dec_loop_chars.
  - match goal with
    | |- numval (VStr ?D) _ = _ =>
        change (numval (VStr D) "encrypt")
          with (r <- numval_logic_enc (VStr D) ;; Ok [r])
    end.
    now rewrite numval_enc_chars.
Qed.

Lemma numval_encrypt_decrypt_witness :
  mapM Py.int (Py.split "  08   +9 0  2_0 ") = Ok [8; 9; 0; 20]
  /\ Forall (fun n => 0 <= n <= 26) [8; 9; 0; 20]
  /\ exists D,
       numval (VStr "  08   +9 0  2_0 ") "decrypt" = Ok [D]
       /\ numval (VStr D) "encrypt" = Ok ["8 9 0 20 "].
Proof.
  assert (F : Forall (fun n => 0 <= n <= 26) [8; 9; 0; 20])
    by (repeat constructor; lia).
  split; [reflexivity|]. split; [exact F|].
  apply (numval_encrypt_decrypt "  08   +9 0  2_0 " [8; 9; 0; 20] eq_refl F).
Defined.

(** ** Argument validation, case by case *)

Ltac each_cipher H :=
  destruct H as [<-|[<-|[<-|[<-|[]]]]].

Ltac each_operation H :=
  destruct H as [<-|[<-|[<-|[<-|[<-|[]]]]]].

(** X18. An operation that the table does not list for the selected
    cipher (bruteforce for subst, numval and atbash; generate for numval and
    atbash) ends the run with the usage error "Operation ... is not
    compatible with ...", before the text or the key is looked at. *)
Theorem incompatible_operation_rejected (fs : string -> option string)
  (rnd : nat -> Z) (c o : string) (t k : option string) :
  In c cipher_names ->
  In o operation_names ->
  supports c o = false ->
  argument_parser fs rnd (namespace c o t k)
  = Raise (UsageError ("Operation " ++ o ++ " is not compatible with " ++ c
                       ++ ". Use crypto --help")).
Proof.
  intros Hc Ho Hs. each_cipher Hc; each_operation Ho;
    first [discriminate Hs | reflexivity].
Qed.

Lemma incompatible_operation_rejected_witness :
  In "atbash" cipher_names
  /\ In "generate" operation_names
  /\ supports "atbash" "generate" = false
  /\ argument_parser (fun _ => None) (fun _ => 0)
       (namespace "atbash" "generate" None None)
     = Raise (UsageError
                "Operation generate is not compatible with atbash. Use crypto --help").
Proof.
  split; [simpl; tauto|]. split; [simpl; tauto|]. split; [reflexivity|].
  apply (incompatible_operation_rejected (fun _ => None) (fun _ => 0)
           "atbash" "generate" None None);
    [simpl; tauto | simpl; tauto | reflexivity].
Defined.

(** X19. For every cipher, a supported encrypt, decrypt or bruteforce
    without [-t] ends with the usage error "<operation> requires -t/--text
    argument", whatever the key argument. *)
Theorem missing_text_rejected (fs : string -> option string)
  (rnd : nat -> Z) (c o : string) (k : option string) :
  In c cipher_names ->
  In o ["encrypt"; "decrypt"; "bruteforce"] ->
  supports c o = true ->
  argument_parser fs rnd (namespace c o None k)
  = Raise (UsageError (o ++ " requires -t/--text argument")).
Proof.
  intros Hc Ho Hs. each_cipher Hc; destruct Ho as [<-|[<-|[<-|[]]]];
    first [discriminate Hs | reflexivity].
Qed.

Lemma missing_text_rejected_witness :
  In "subst" cipher_names
  /\ In "decrypt" ["encrypt"; "decrypt"; "bruteforce"]
  /\ supports "subst" "decrypt" = true
  /\ argument_parser (fun _ => None) (fun _ => 0)
       (namespace "subst" "decrypt" None (Some "QWERTY"))
     = Raise (UsageError "decrypt requires -t/--text argument").
Proof.
  split; [simpl; tauto|]. split; [simpl; tauto|]. split; [reflexivity|].
  apply (missing_text_rejected (fun _ => None) (fun _ => 0)
           "subst" "decrypt" (Some "QWERTY"));
    [simpl; tauto | simpl; tauto | reflexivity].
Defined.

(** X20. For every cipher, a supported generate or info with a [-t]
    argument ends with the usage error "<operation> does not require
    -t/--text argument"; the argument is not read. *)
Theorem unneeded_text_rejected (fs : string -> option string)
  (rnd : nat -> Z) (c o t : string) (k : option string) :
  In c cipher_names ->
  In o ["generate"; "info"] ->
  supports c o = true ->
  argument_parser fs rnd (namespace c o (Some t) k)
  = Raise (UsageError (o ++ " does not require -t/--text argument")).
Proof.
  intros Hc Ho Hs. each_cipher Hc; destruct Ho as [<-|[<-|[]]];
    first [discriminate Hs | reflexivity].
Qed.

Lemma unneeded_text_rejected_witness :
  In "rot" cipher_names
  /\ In "generate" ["generate"; "info"]
  /\ supports "rot" "generate" = true
  /\ argument_parser (fun _ => None) (fun _ => 0)
       (namespace "rot" "generate" (Some "abc") None)
     = Raise (UsageError "generate does not require -t/--text argument").
Proof.
  split; [simpl; tauto|]. split; [simpl; tauto|]. split; [reflexivity|].
  apply (unneeded_text_rejected (fun _ => None) (fun _ => 0)
           "rot" "generate" "abc" None);
    [simpl; tauto | simpl; tauto | reflexivity].
Defined.

(** X21. For every cipher and every supported encrypt, decrypt or
    bruteforce, a text that after loading and stripping consists of digits
    only ends the run with the usage error "-t/--text input must be a
    string, not a number" (so a lone numeric token can never be passed to
    numeric-value decrypt). *)
Theorem numeric_text_rejected (fs : string -> option string)
  (rnd : nat -> Z) (c o t : string) (k : option string) :
  In c cipher_names ->
  In o ["encrypt"; "decrypt"; "bruteforce"] ->
  supports c o = true ->
  Py.isdigit (load fs t) = true ->
  argument_parser fs rnd (namespace c o (Some t) k)
  = Raise (UsageError "-t/--text input must be a string, not a number").
Proof.
  intros Hc Ho Hs Hd. each_cipher Hc; destruct Ho as [<-|[<-|[<-|[]]]];
    first [discriminate Hs
          | unfold argument_parser;
            cbn -[rot subst numval atbash load Py.isdigit Py.int];
            rewrite Hd; reflexivity].
Qed.

Lemma numeric_text_rejected_witness :
  In "numval" cipher_names
  /\ In "decrypt" ["encrypt"; "decrypt"; "bruteforce"]
  /\ supports "numval" "decrypt" = true
  /\ Py.isdigit (load (fun _ => None) " 19 ") = true
  /\ argument_parser (fun _ => None) (fun _ => 0)
       (namespace "numval" "decrypt" (Some " 19 ") None)
     = Raise (UsageError "-t/--text input must be a string, not a number").
Proof.
  split; [simpl; tauto|]. split; [simpl; tauto|]. split; [reflexivity|].
  split; [reflexivity|].
  apply (numeric_text_rejected (fun _ => None) (fun _ => 0)
           "numval" "decrypt" " 19 " None);
    [simpl; tauto | simpl; tauto | reflexivity | reflexivity].
Defined.

(** X22. For rot and subst, encrypt or decrypt with an acceptable text
    but without [-k] ends with the usage error "<cipher> cipher requires
    -k/--key argument". *)
Theorem missing_key_rejected (fs : string -> option string)
  (rnd : nat -> Z) (c o t : string) :
  In c ["rot"; "subst"] ->
  In o ["encrypt"; "decrypt"] ->
  Py.isdigit (load fs t) = false ->
  argument_parser fs rnd (namespace c o (Some t) None)
  = Raise (UsageError (c ++ " cipher requires -k/--key argument")).
Proof.
  intros Hc Ho Hd.
  destruct Hc as [<-|[<-|[]]]; destruct Ho as [<-|[<-|[]]];
    unfold argument_parser;
    cbn -[rot subst numval atbash load Py.isdigit Py.int];
    rewrite Hd; reflexivity.
Qed.

Lemma missing_key_rejected_witness :
  In "subst" ["rot"; "subst"]
  /\ In "decrypt" ["encrypt"; "decrypt"]
  /\ Py.isdigit (load (fun _ => None) "Itssg") = false
  /\ argument_parser (fun _ => None) (fun _ => 0)
       (namespace "subst" "decrypt" (Some "Itssg") None)
     = Raise (UsageError "subst cipher requires -k/--key argument").
Proof.
  split; [simpl; tauto|]. split; [simpl; tauto|]. split; [reflexivity|].
  apply (missing_key_rejected (fun _ => None) (fun _ => 0)
           "subst" "decrypt" "Itssg");
    [simpl; tauto | simpl; tauto | reflexivity].
Defined.

(** X23. The key is typed by whether [int()] reads it: with an
    acceptable text, rot encrypt or decrypt with a key that is not an
    integer literal ends with "Cipher rot requires numeric key (-k)", and
    subst encrypt or decrypt with a key that is an integer literal ends with
    "Cipher subst requires string key (-k)". *)
Theorem key_type_mismatch_rejected (fs : string -> option string)
  (rnd : nat -> Z) (o t k : string) :
  In o ["encrypt"; "decrypt"] ->
  Py.isdigit (load fs t) = false ->
  (Py.int (load fs k) = Raise ValueError ->
     argument_parser fs rnd (namespace "rot" o (Some t) (Some k))
     = Raise (UsageError "Cipher rot requires numeric key (-k)"))
  /\ (forall z, Py.int (load fs k) = Ok z ->
        argument_parser fs rnd (namespace "subst" o (Some t) (Some k))
        = Raise (UsageError "Cipher subst requires string key (-k)")).
Proof.
  intros Ho Hd.
  destruct Ho as [<-|[<-|[]]]; (split; [intros Hk | intros z Hk]);
    unfold argument_parser;
    cbn -[rot subst numval atbash load Py.isdigit Py.int];
    rewrite Hd; cbn -[rot subst numval atbash load Py.isdigit Py.int];
    rewrite Hk; reflexivity.
Qed.

Lemma key_type_mismatch_rejected_witness :
  In "encrypt" ["encrypt"; "decrypt"]
  /\ Py.isdigit (load (fun _ => None) "Hello") = false
  /\ argument_parser (fun _ => None) (fun _ => 0)
       (namespace "rot" "encrypt" (Some "Hello") (Some "three"))
     = Raise (UsageError "Cipher rot requires numeric key (-k)")
  /\ argument_parser (fun _ => None) (fun _ => 0)
       (namespace "subst" "encrypt" (Some "Hello") (Some "1_0"))
     = Raise (UsageError "Cipher subst requires string key (-k)").
Proof.
  split; [simpl; tauto|]. split; [reflexivity|]. split.
  - destruct (key_type_mismatch_rejected (fun _ => None) (fun _ => 0)
                "encrypt" "Hello" "three") as [H _];
      [simpl; tauto | reflexivity |].
    apply H. reflexivity.
  - destruct (key_type_mismatch_rejected (fun _ => None) (fun _ => 0)
                "encrypt" "Hello" "1_0") as [_ H];
      [simpl; tauto | reflexivity |].
    apply (H 10). reflexivity.
Defined.

(** X24. A key argument that the selected cipher and operation do not
    need is never read: for numval and atbash with any operation, and for
    every cipher with bruteforce, generate or info, the run with [-k] is the
    run without it. *)
Theorem unneeded_key_ignored (fs : string -> option string)
  (rnd : nat -> Z) (c o : string) (t : option string) (k : string) :
  In c cipher_names ->
  In o operation_names ->
  In c ["numval"; "atbash"] \/ In o ["bruteforce"; "generate"; "info"] ->
  argument_parser fs rnd (namespace c o t (Some k))
  = argument_parser fs rnd (namespace c o t None).
Proof.
  intros Hc Ho H. each_cipher Hc; each_operation Ho;
    first [ reflexivity
          | exfalso; destruct H as [H|H]; simpl in H;
            repeat (destruct H as [H|H]; [discriminate H|]); exact H ].
Qed.

Lemma unneeded_key_ignored_witness :
  In "rot" cipher_names
  /\ In "bruteforce" operation_names
  /\ (In "rot" ["numval"; "atbash"]
      \/ In "bruteforce" ["bruteforce"; "generate"; "info"])
  /\ argument_parser (fun _ => None) (fun _ => 0)
       (namespace "rot" "bruteforce" (Some "HELLO") (Some "no key"))
     = argument_parser (fun _ => None) (fun _ => 0)
         (namespace "rot" "bruteforce" (Some "HELLO") None).
Proof.
  split; [simpl; tauto|]. split; [simpl; tauto|].
  split; [right; simpl; tauto|].
  apply (unneeded_key_ignored (fun _ => None) (fun _ => 0)
           "rot" "bruteforce" (Some "HELLO") "no key");
    [simpl; tauto | simpl; tauto | right; simpl; tauto].
Defined.

(** ** Which exceptions a run can end with *)

Lemma getitem_raises (s : string) (z : Z) (e : PyError) :
  Py.getitem s z = Raise e -> e = IndexError.
Proof.
  unfold Py.getitem.
  destruct ((0 <=? (if z <? 0 then z + Z.of_nat (String.length s) else z))
            && ((if z <? 0 then z + Z.of_nat (String.length s) else z)
                <? Z.of_nat (String.length s))).
  - destruct (String.get _ s); [discriminate | now intros [= <-]].
  - now intros [= <-].
Qed.

Lemma subst_enc_loop_raises (key_lower key_upper T : string) (e : PyError) :
  forall final_text,
    subst_enc_loop T key_lower key_upper final_text = Raise e ->
    e = IndexError.
Proof.
  intros final_text. rewrite subst_enc_loop_any_key.
  destruct (Py.str_forallb _ T); [discriminate | now intros [= <-]].
Qed.

Lemma subst_dec_loop_raises (key_lower key_upper T : string) (e : PyError) :
  forall final_text,
    subst_dec_loop T key_lower key_upper final_text = Raise e ->
    e = IndexError.
Proof.
  induction T as [|char rest IH]; intros final_text; [discriminate|].
  cbn [subst_dec_loop].
  destruct (Py.str_in char key_lower) eqn:Hl;
    [| destruct (Py.str_in char key_upper) eqn:Hu].
  - rewrite (str_index_pos _ _ Hl). cbn [bind].
    destruct (Py.getitem letters_lower _) as [c|e'] eqn:G; cbn [bind].
    + apply IH.
    + intros [= <-]. now apply getitem_raises in G.
  - rewrite (str_index_pos _ _ Hu). cbn [bind].
    destruct (Py.getitem letters_upper _) as [c|e'] eqn:G; cbn [bind].
    + apply IH.
    + intros [= <-]. now apply getitem_raises in G.
  - apply IH.
Qed.

Lemma numval_dec_loop_raises (tokens : list Z) (e : PyError) :
  forall final_text,
    numval_dec_loop tokens final_text = Raise e -> e = IndexError.
Proof.
  induction tokens as [|n rest IH]; intros final_text; [discriminate|].
  cbn [numval_dec_loop]. destruct (negb (n =? 0)).
  - destruct (Py.getitem letters_upper (n - 1)) as [c|e'] eqn:G; cbn [bind].
    + apply IH.
    + intros [= <-]. now apply getitem_raises in G.
  - apply IH.
Qed.

Lemma mapM_int_only_raises (l : list string) (e : PyError) :
  mapM Py.int l = Raise e -> e = ValueError.
Proof.
  induction l as [|a l IH]; [discriminate|].
  cbn [mapM]. destruct (Py.int a) as [n|e'] eqn:E; cbn [bind].
  - destruct (mapM Py.int l) as [ns|e'']; cbn [bind]; [discriminate|].
    intros [= <-]. now apply IH.
  - intros [= <-]. now apply int_raises in E.
Qed.

Lemma rot_typed_ok (rnd : nat -> Z) (T : string) (z : Z) (o : string)
  (e : PyError) :
  In o ["encrypt"; "decrypt"] ->
  rot rnd (VStr T) (VInt z) o <> Raise e.
Proof.
  intros [<-|[<-|[]]].
  - now rewrite rot_encrypt_eq.
  - now rewrite rot_decrypt_eq.
Qed.

Lemma rot_untyped_ok (rnd : nat -> Z) (text key : value) (o : string)
  (e : PyError) :
  In o ["generate"; "info"] ->
  rot rnd text key o <> Raise e.
Proof. intros [<-|[<-|[]]]; discriminate. Qed.

Lemma subst_typed_raises (rnd : nat -> Z) (T P o : string) (e : PyError) :
  In o ["encrypt"; "decrypt"] ->
  subst rnd (VStr T) (VStr P) o = Raise e -> e = IndexError.
Proof.
  intros [<-|[<-|[]]].
  - change (subst rnd (VStr T) (VStr P) "encrypt")
      with (r <- subst_enc_loop T (Py.lower P) (Py.upper P) EmptyString ;;
            Ok [r]).
    destruct (subst_enc_loop T (Py.lower P) (Py.upper P) EmptyString)
      as [r|e'] eqn:E; cbn [bind]; [discriminate|].
    intros [= <-]. now apply subst_enc_loop_raises in E.
  - change (subst rnd (VStr T) (VStr P) "decrypt")
      with (r <- subst_dec_loop T (Py.lower P) (Py.upper P) EmptyString ;;
            Ok [r]).
    destruct (subst_dec_loop T (Py.lower P) (Py.upper P) EmptyString)
      as [r|e'] eqn:E; cbn [bind]; [discriminate|].
    intros [= <-]. now apply subst_dec_loop_raises in E.
Qed.

Lemma subst_untyped_ok (rnd : nat -> Z) (text key : value) (o : string)
  (e : PyError) :
  In o ["generate"; "info"] ->
  subst rnd text key o <> Raise e.
Proof.
  intros [<-|[<-|[]]]; [|discriminate].
  destruct (subst_gen_loop_perm rnd 26 O (chars letters_upper) EmptyString
              eq_refl) as (out & Hout & _).
  change (subst rnd text key "generate")
    with (r <- subst_gen_loop rnd 26 O (chars letters_upper) EmptyString ;;
          Ok [r]).
  now rewrite Hout.
Qed.

Lemma numval_decrypt_raises (T : string) (e : PyError) :
  numval (VStr T) "decrypt" = Raise e -> e = IndexError \/ e = ValueError.
Proof.
  change (numval (VStr T) "decrypt")
    with (r <- (tokens <- mapM Py.int (Py.split T) ;;
                numval_dec_loop tokens EmptyString) ;; Ok [r]).
  destruct (mapM Py.int (Py.split T)) as [tokens|e'] eqn:E; cbn [bind].
  - destruct (numval_dec_loop tokens EmptyString) as [r|e'] eqn:D;
      cbn [bind]; [discriminate|].
    intros [= <-]. left. now apply numval_dec_loop_raises in D.
  - intros [= <-]. right. now apply mapM_int_only_raises in E.
Qed.

Lemma numval_encrypt_ok (T : string) (e : PyError) :
  numval (VStr T) "encrypt" <> Raise e.
Proof.
  change (numval (VStr T) "encrypt")
    with (r <- numval_logic_enc (VStr T) ;; Ok [r]).
  now rewrite numval_logic_enc_eq.
Qed.

Lemma atbash_ok (T o : string) (e : PyError) :
  In o ["encrypt"; "decrypt"] ->
  atbash (VStr T) o <> Raise e.
Proof.
  intros [<-|[<-|[]]].
  - now rewrite atbash_encrypt_eq.
  - now rewrite atbash_decrypt_eq.
Qed.

Lemma parse_args_cases (ns : Namespace) :
  (exists msg, parse_args ns = Raise (UsageError msg))
  \/ (parse_args ns = Ok ns
      /\ exists c o,
           In c cipher_names /\ In o operation_names
           /\ ns = namespace c o (arg_text ns) (arg_key ns)).
Proof.
  destruct ns as [r s n a e d b g i t k].
  destruct r, s, n, a, e, d, b, g, i;
    try (left; eexists; reflexivity);
    right; (split; [reflexivity|]);
    solve [ (exists "rot" + exists "subst" + exists "numval"
             + exists "atbash");
            (exists "encrypt" + exists "decrypt" + exists "bruteforce"
             + exists "generate" + exists "info");
            (split; [simpl; tauto|]); (split; [simpl; tauto|]);
            cbv; reflexivity ].
Qed.

Lemma load_io_readable (fs : string -> option string) (arg : string) :
  load_io (readable fs) arg = Ok (load fs arg).
Proof. unfold load_io, readable, load. now destruct (fs arg). Qed.

(** On a file system whose files can be read, the two embeddings of the
    argument parser are the same function. *)
Lemma argument_parser_readable (fs : string -> option string)
  (rnd : nat -> Z) (ns : Namespace) :
  argument_parser_io (readable fs) rnd ns = argument_parser fs rnd ns.
Proof.
  assert (T : forall args o, load_text_io (readable fs) args o
                             = load_text fs args o).
  { intros args o. unfold load_text_io, load_text.
    destruct (str_in_list o _); [|reflexivity].
    destruct (arg_text args); [|reflexivity].
    now rewrite load_io_readable. }
  assert (K : forall args c o info, load_key_io (readable fs) args c o info
                                    = load_key fs args c o info).
  { intros args c o info. unfold load_key_io, load_key.
    destruct (is_some (key_type info) && _); [|reflexivity].
    destruct (arg_key args); [|reflexivity].
    now rewrite load_io_readable. }
  unfold argument_parser_io, argument_parser.
  destruct (parse_args ns) as [args|e]; [|reflexivity]. cbn [bind].
  destruct (select_cipher (vars args) None); [|reflexivity].
  destruct (dict_get CIPHER_INFO s) as [info|e]; [|reflexivity]. cbn [bind].
  destruct (negb _); [reflexivity|].
  now rewrite T, K.
Qed.

Lemma load_io_raises (fs : FileSystem) (arg : string) (e : PyError) :
  load_io fs arg = Raise e ->
  exists failure, fs arg = Some (inr failure) /\ read_error failure = e.
Proof.
  unfold load_io. destruct (fs arg) as [[contents|failure]|];
    try discriminate.
  intros [= <-]. now exists failure.
Qed.

Ltac parser_steps :=
  repeat (cbn -[rot subst numval atbash load_io Py.isdigit Py.int];
          match goal with
          | |- context [match ?t with Some _ => _ | None => _ end] =>
              is_var t; destruct t
          | |- context [is_some ?t] => is_var t; destruct t
          | |- context [load_io ?fs ?x] =>
              let L := fresh "L" in
              destruct (load_io fs x) as [?|?] eqn:L
          | |- context [if Py.isdigit ?x then _ else _] =>
              destruct (Py.isdigit x)
          | |- context [Py.int ?x] =>
              let E := fresh "E" in
              let e := fresh "e" in
              destruct (Py.int x) as [?|e] eqn:E;
              [| apply int_raises in E; subst e]
          end);
  cbn -[rot subst numval atbash load_io Py.isdigit Py.int].

(** A run that stops on a file that cannot be read. *)
Ltac read_failure H :=
  injection H as <-;
  match goal with
  | L : load_io _ ?arg = Raise _ |- _ =>
      apply load_io_raises in L;
      let f := fresh "f" in
      destruct L as (f & L & <-);
      destruct f; cbn [read_error];
      exists arg; eexists;
      (split; [first [left; reflexivity | right; reflexivity]
              | split; [exact L | reflexivity]])
  end.

Ltac cipher_outcome H :=
  lazymatch type of H with
  | rot _ (VStr _) (VInt _) _ = _ =>
      exfalso; revert H; apply rot_typed_ok; simpl; tauto
  | rot _ _ _ "bruteforce" = _ =>
      rewrite rot_bruteforce_eq in H; discriminate H
  | rot _ _ _ _ = _ =>
      exfalso; revert H; apply rot_untyped_ok; simpl; tauto
  | subst _ (VStr _) (VStr _) _ = _ =>
      apply subst_typed_raises in H; [subst; simpl; tauto | simpl; tauto]
  | subst _ _ _ _ = _ =>
      exfalso; revert H; apply subst_untyped_ok; simpl; tauto
  | numval _ "encrypt" = _ =>
      exfalso; revert H; apply numval_encrypt_ok
  | numval _ "decrypt" = _ =>
      apply numval_decrypt_raises in H; destruct H; subst; simpl; tauto
  | numval _ "info" = _ => discriminate H
  | atbash _ "info" = _ => discriminate H
  | atbash _ _ = _ =>
      exfalso; revert H; apply atbash_ok; simpl; tauto
  | Raise (UsageError _) = Raise _ => injection H as <-; exact I
  | Raise _ = Raise _ => read_failure H
  end.

(** X25. Whatever the parsed arguments, the file system and the random
    draws, a run ends by printing, with a usage error, or with an uncaught
    exception of one of these kinds only: [IndexError], only from
    substitution encrypt or decrypt and from numeric-value decrypt;
    [ValueError] (raised by [int]), only from numeric-value decrypt;
    [OSError] or [UnicodeDecodeError], only when the [-t] or [-k] argument
    names a file whose reading raises it.  The cipher functions are never
    called with an argument of the wrong type. *)
Theorem run_exceptions (fs : FileSystem) (rnd : nat -> Z)
  (ns : Namespace) (e : PyError) :
  argument_parser_io fs rnd ns = Raise e ->
  match e with
  | UsageError _ => True
  | IndexError =>
      (arg_subst ns = true /\ (arg_encrypt ns = true \/ arg_decrypt ns = true))
      \/ (arg_numval ns = true /\ arg_decrypt ns = true)
  | ValueError => arg_numval ns = true /\ arg_decrypt ns = true
  | OSError | UnicodeDecodeError =>
      exists arg failure,
        (arg_text ns = Some arg \/ arg_key ns = Some arg)
        /\ fs arg = Some (inr failure)
        /\ read_error failure = e
  | TypeError | AttributeError | KeyError => False
  end.
Proof.
  destruct (parse_args_cases ns) as [[msg Hp] | (Hp & c & o & Hc & Ho & Hns)].
  - unfold argument_parser_io. rewrite Hp. cbn [bind]. now intros [= <-].
  - rewrite Hns. generalize (arg_text ns) as t, (arg_key ns) as k.
    clear Hp Hns. intros t k.
    each_cipher Hc; each_operation Ho;
      unfold argument_parser_io, load_text_io, load_key_io;
      parser_steps; intros H; cipher_outcome H.
Qed.

Lemma run_exceptions_witness :
  argument_parser_io
    (fun name => if String.eqb name "notes.bin" then Some (inr CannotDecode)
                 else None)
    (fun _ => 0)
    (namespace "atbash" "encrypt" (Some "notes.bin") None)
  = Raise UnicodeDecodeError
  /\ exists arg failure,
       (arg_text (namespace "atbash" "encrypt" (Some "notes.bin") None)
        = Some arg
        \/ arg_key (namespace "atbash" "encrypt" (Some "notes.bin") None)
           = Some arg)
       /\ (if String.eqb arg "notes.bin" then Some (inr CannotDecode)
           else None) = Some (@inr string ReadFailure failure)
       /\ read_error failure = UnicodeDecodeError.
Proof.
  split; [reflexivity|].
  apply (run_exceptions
           (fun name => if String.eqb name "notes.bin"
                        then Some (inr CannotDecode) else None)
           (fun _ => 0)
           (namespace "atbash" "encrypt" (Some "notes.bin") None)
           UnicodeDecodeError).
  reflexivity.
Defined.

(** ** Whole runs: what is printed can be fed back *)

Section Stripping.

Variable f : ascii -> ascii.
Hypothesis f_space : forall c, Py.isspace (f c) = Py.isspace c.
Hypothesis f_digit : forall c, Py.isdigit_char (f c) = Py.isdigit_char c.

Lemma lstrip_map (s : string) :
  Py.lstrip (Py.str_map f s) = Py.str_map f (Py.lstrip s).
Proof.
  induction s as [|a s IH]; [reflexivity|].
  cbn [Py.str_map Py.lstrip]. rewrite f_space.
  now destruct (Py.isspace a).
Qed.

Lemma rstrip_map (s : string) :
  Py.rstrip (Py.str_map f s) = Py.str_map f (Py.rstrip s).
Proof.
  induction s as [|a s IH]; [reflexivity|].
  cbn [Py.str_map Py.rstrip]. rewrite IH, f_space.
  destruct (Py.rstrip s); [now destruct (Py.isspace a) | reflexivity].
Qed.

Lemma strip_map (s : string) :
  Py.strip (Py.str_map f s) = Py.str_map f (Py.strip s).
Proof. unfold Py.strip. now rewrite lstrip_map, rstrip_map. Qed.

Lemma isdigit_map (s : string) :
  Py.isdigit (Py.str_map f s) = Py.isdigit s.
Proof.
  assert (G : forall u, Py.str_forallb Py.isdigit_char (Py.str_map f u)
                        = Py.str_forallb Py.isdigit_char u).
  { induction u as [|a u IH]; [reflexivity|].
    cbn [Py.str_map Py.str_forallb]. now rewrite f_digit, IH. }
  destruct s as [|a s]; [reflexivity|]. apply (G (String a s)).
Qed.

End Stripping.

Lemma rstrip_idempotent (s : string) : Py.rstrip (Py.rstrip s) = Py.rstrip s.
Proof.
  induction s as [|a s IH]; [reflexivity|].
  cbn [Py.rstrip]. destruct (Py.rstrip s) as [|b r] eqn:E.
  - destruct (Py.isspace a) eqn:Ha; [reflexivity|].
    cbn [Py.rstrip]. now rewrite Ha.
  - change (Py.rstrip (String a (String b r)))
      with (match Py.rstrip (String b r) with
            | EmptyString =>
                if Py.isspace a then EmptyString else String a EmptyString
            | String x y => String a (String x y)
            end).
    now rewrite IH.
Qed.

Lemma lstrip_rstrip (s : string) :
  Py.lstrip (Py.rstrip (Py.lstrip s)) = Py.rstrip (Py.lstrip s).
Proof.
  induction s as [|a s IH]; [reflexivity|].
  cbn [Py.lstrip]. destruct (Py.isspace a) eqn:Ha; [exact IH|].
  cbn [Py.rstrip].
  destruct (Py.rstrip s); [rewrite Ha|]; cbn [Py.lstrip]; now rewrite Ha.
Qed.

Lemma strip_idempotent (s : string) : Py.strip (Py.strip s) = Py.strip s.
Proof.
  unfold Py.strip. now rewrite lstrip_rstrip, rstrip_idempotent.
Qed.

Lemma load_stripped (fs : string -> option string) (t : string) :
  Py.strip (load fs t) = load fs t.
Proof. unfold load. destruct (fs t); apply strip_idempotent. Qed.

Lemma load_of_stripped (fs : string -> option string) (s : string) :
  fs s = None -> Py.strip s = s -> load fs s = s.
Proof. intros H E. unfold load. now rewrite H. Qed.

Lemma alpha_not_space_digit (c : ascii) :
  is_alpha c = true -> Py.isspace c = false /\ Py.isdigit_char c = false.
Proof.
  destruct c as [[|] [|] [|] [|] [|] [|] [|] [|]]; vm_compute;
    intros H; first [split; reflexivity | discriminate H].
Qed.

Lemma rot_char_alpha (z : Z) (c : ascii) :
  is_alpha c = true -> is_alpha (rot_char z c) = true.
Proof.
  unfold is_alpha at 1, rot_char.
  destruct (Py.str_in c letters_lower) eqn:Hl.
  - intros _. unfold is_alpha.
    now rewrite (shift_in_member _ letters_lower_length).
  - cbn [orb]. intros ->. unfold is_alpha.
    rewrite (shift_in_member _ letters_upper_length). apply orb_true_r.
Qed.

Lemma rot_char_space (z : Z) (c : ascii) :
  Py.isspace (rot_char z c) = Py.isspace c.
Proof.
  destruct (is_alpha c) eqn:Ha.
  - destruct (alpha_not_space_digit _ (rot_char_alpha z c Ha)) as [-> _].
    now destruct (alpha_not_space_digit _ Ha) as [-> _].
  - now rewrite rot_char_not_alpha.
Qed.

Lemma rot_char_digit (z : Z) (c : ascii) :
  Py.isdigit_char (rot_char z c) = Py.isdigit_char c.
Proof.
  destruct (is_alpha c) eqn:Ha.
  - destruct (alpha_not_space_digit _ (rot_char_alpha z c Ha)) as [_ ->].
    now destruct (alpha_not_space_digit _ Ha) as [_ ->].
  - now rewrite rot_char_not_alpha.
Qed.

Lemma rot_run (fs : string -> option string) (rnd : nat -> Z)
  (o t k : string) (z : Z) :
  In o ["encrypt"; "decrypt"] ->
  Py.isdigit (load fs t) = false ->
  Py.int (load fs k) = Ok z ->
  argument_parser fs rnd (namespace "rot" o (Some t) (Some k))
  = rot rnd (VStr (load fs t)) (VInt z) o.
Proof.
  intros Ho Hd Hk. destruct Ho as [<-|[<-|[]]];
    unfold argument_parser;
    cbn -[rot subst numval atbash load Py.isdigit Py.int];
    rewrite Hd; cbn -[rot subst numval atbash load Py.isdigit Py.int];
    rewrite Hk; reflexivity.
Qed.

(** X26. A rotation run can be undone by a run: when the text is
    acceptable and the key is an integer literal, encrypt prints one line
    [E], and decrypt of [E] under the same key (when [E] is not the name of
    a file) prints the text as it was loaded, that is, stripped. *)
Theorem rot_run_round_trip (fs : string -> option string) (rnd : nat -> Z)
  (t k : string) (z : Z) :
  Py.isdigit (load fs t) = false ->
  Py.int (load fs k) = Ok z ->
  exists E,
    argument_parser fs rnd (namespace "rot" "encrypt" (Some t) (Some k))
    = Ok [E]
    /\ (fs E = None ->
        argument_parser fs rnd (namespace "rot" "decrypt" (Some E) (Some k))
        = Ok [load fs t]).
Proof.
  intros Hd Hk. exists (Py.str_map (rot_char z) (load fs t)). split.
  - rewrite (rot_run fs rnd "encrypt" t k z) by (simpl; tauto || assumption).
    apply rot_encrypt_eq.
  - intros HE.
    assert (L : load fs (Py.str_map (rot_char z) (load fs t))
                = Py.str_map (rot_char z) (load fs t)).
    { apply load_of_stripped; [exact HE|].
      rewrite (strip_map _ (rot_char_space z)). now rewrite load_stripped. }
    rewrite (rot_run fs rnd "decrypt" _ k z);
      [| simpl; tauto
       | rewrite L, (isdigit_map _ (rot_char_digit z)); exact Hd
       | exact Hk].
    rewrite L, rot_decrypt_eq, str_map_map. do 2 f_equal.
    apply str_map_id. intros c _. apply rot_char_inverse.
Qed.

Lemma rot_run_round_trip_witness :
  Py.isdigit (load (fun _ => None) "  Hello, World!  ") = false
  /\ Py.int (load (fun _ => None) "3") = Ok 3
  /\ exists E,
       argument_parser (fun _ => None) (fun _ => 0)
         (namespace "rot" "encrypt" (Some "  Hello, World!  ") (Some "3"))
       = Ok [E]
       /\ ((fun _ : string => @None string) E = None ->
           argument_parser (fun _ => None) (fun _ => 0)
             (namespace "rot" "decrypt" (Some E) (Some "3"))
           = Ok [load (fun _ => None) "  Hello, World!  "]).
Proof.
  split; [reflexivity|]. split; [reflexivity|].
  apply (rot_run_round_trip (fun _ => None) (fun _ => 0)
           "  Hello, World!  " "3" 3); reflexivity.
Defined.

Lemma atbash_char_space (c : ascii) :
  Py.isspace (atbash_char c) = Py.isspace c.
Proof.
  destruct c as [[|] [|] [|] [|] [|] [|] [|] [|]]; vm_compute; reflexivity.
Qed.

Lemma atbash_char_digit (c : ascii) :
  Py.isdigit_char (atbash_char c) = Py.isdigit_char c.
Proof.
  destruct c as [[|] [|] [|] [|] [|] [|] [|] [|]]; vm_compute; reflexivity.
Qed.

Lemma atbash_run (fs : string -> option string) (rnd : nat -> Z)
  (o t : string) (k : option string) :
  In o ["encrypt"; "decrypt"] ->
  Py.isdigit (load fs t) = false ->
  argument_parser fs rnd (namespace "atbash" o (Some t) k)
  = Ok [Py.str_map atbash_char (load fs t)].
Proof.
  intros Ho Hd. destruct Ho as [<-|[<-|[]]];
    unfold argument_parser;
    cbn -[rot subst numval atbash load Py.isdigit Py.int];
    rewrite Hd; cbn -[rot subst numval atbash load Py.isdigit Py.int].
  - apply atbash_encrypt_eq.
  - apply atbash_decrypt_eq.
Qed.

(** X27. An Atbash run undoes an Atbash run: when the text is acceptable,
    encrypt or decrypt prints one line [E], and encrypt or decrypt of [E]
    (when [E] is not the name of a file) prints the text as it was loaded,
    that is, stripped. *)
Theorem atbash_run_involution (fs : string -> option string) (rnd : nat -> Z)
  (o o' t : string) (k k' : option string) :
  In o ["encrypt"; "decrypt"] ->
  In o' ["encrypt"; "decrypt"] ->
  Py.isdigit (load fs t) = false ->
  exists E,
    argument_parser fs rnd (namespace "atbash" o (Some t) k) = Ok [E]
    /\ (fs E = None ->
        argument_parser fs rnd (namespace "atbash" o' (Some E) k')
        = Ok [load fs t]).
Proof.
  intros Ho Ho' Hd. exists (Py.str_map atbash_char (load fs t)). split.
  - now apply atbash_run.
  - intros HE.
    assert (L : load fs (Py.str_map atbash_char (load fs t))
                = Py.str_map atbash_char (load fs t)).
    { apply load_of_stripped; [exact HE|].
      rewrite (strip_map _ atbash_char_space). now rewrite load_stripped. }
    rewrite atbash_run;
      [| exact Ho' | rewrite L, (isdigit_map _ atbash_char_digit); exact Hd].
    rewrite L, str_map_map. do 2 f_equal.
    apply str_map_id. intros c _. apply atbash_char_involutive.
Qed.

Lemma atbash_run_involution_witness :
  In "encrypt" ["encrypt"; "decrypt"]
  /\ In "decrypt" ["encrypt"; "decrypt"]
  /\ Py.isdigit (load (fun _ => None) " Hello 42 ") = false
  /\ exists E,
       argument_parser (fun _ => None) (fun _ => 0)
         (namespace "atbash" "encrypt" (Some " Hello 42 ") None) = Ok [E]
       /\ ((fun _ : string => @None string) E = None ->
           argument_parser (fun _ => None) (fun _ => 0)
             (namespace "atbash" "decrypt" (Some E) None)
           = Ok [load (fun _ => None) " Hello 42 "]).
Proof.
  split; [simpl; tauto|]. split; [simpl; tauto|]. split; [reflexivity|].
  apply (atbash_run_involution (fun _ => None) (fun _ => 0)
           "encrypt" "decrypt" " Hello 42 " None None);
    [simpl; tauto | simpl; tauto | reflexivity].
Defined.

Lemma split_from_rstrip (s : string) :
  forall cur, Py.split_from (Py.rstrip s) cur = Py.split_from s cur.
Proof.
  induction s as [|a s IH]; intros cur; [reflexivity|].
  cbn [Py.rstrip Py.split_from].
  destruct (Py.rstrip s) as [|b r] eqn:E.
  - destruct (Py.isspace a) eqn:Ha.
    + cbn [Py.split_from]. destruct cur; now rewrite <- IH.
    + cbn [Py.split_from]. rewrite Ha. now rewrite <- IH.
  - cbn [Py.split_from]. destruct (Py.isspace a).
    + destruct cur; now rewrite <- IH.
    + now rewrite <- IH.
Qed.

Lemma split_lstrip (s : string) : Py.split (Py.lstrip s) = Py.split s.
Proof.
  unfold Py.split. induction s as [|a s IH]; [reflexivity|].
  cbn [Py.lstrip]. destruct (Py.isspace a) eqn:Ha.
  - cbn [Py.split_from]. now rewrite Ha.
  - reflexivity.
Qed.

Lemma split_strip (s : string) : Py.split (Py.strip s) = Py.split s.
Proof.
  unfold Py.strip. unfold Py.split at 1.
  rewrite split_from_rstrip. apply split_lstrip.
Qed.

Lemma digit_char_nonspace (c : ascii) :
  Py.isdigit_char c = true -> nonspace c = true.
Proof.
  destruct c as [[|] [|] [|] [|] [|] [|] [|] [|]]; vm_compute;
    intros H; first [reflexivity | discriminate H].
Qed.

Lemma isdigit_single_token (s : string) :
  Py.isdigit s = true -> Py.split s = [s].
Proof.
  intros H. apply split_single.
  - now destruct s.
  - destruct s as [|a s]; [discriminate|].
    eapply forallb_impl; [exact digit_char_nonspace | exact H].
Qed.

Lemma isdigit_str (n : Z) : 0 <= n -> Py.isdigit (Py.str n) = true.
Proof.
  intros Hn.
  assert (G : forall u, u <> Nil ->
                Py.isdigit (NilEmpty.string_of_uint u) = true).
  { intros u Hu. pose proof (uint_string_nonempty u Hu) as Hne.
    pose proof (uint_string_decimal u) as Hd.
    destruct (NilEmpty.string_of_uint u) as [|a r]; [congruence|].
    eapply forallb_impl; [|exact Hd].
    intros c Hc. unfold Py.isdigit_char. now rewrite Hc. }
  unfold Py.str. destruct n as [|p|p]; cbn [Z.to_int NilEmpty.string_of_int].
  - reflexivity.
  - apply G, DecimalPos.Unsigned.to_uint_nonnil.
  - lia.
Qed.

Lemma rstrip_app_space (d : string) : Py.rstrip (d ++ " ") = Py.rstrip d.
Proof.
  induction d as [|a d IH]; [reflexivity|].
  cbn [append Py.rstrip]. now rewrite IH.
Qed.

Lemma strip_token (d : string) :
  d <> EmptyString -> Py.str_forallb nonspace d = true ->
  Py.strip (d ++ " ") = d.
Proof.
  intros Hne H. unfold Py.strip.
  destruct d as [|a r]; [congruence|].
  pose proof H as H'. cbn [Py.str_forallb] in H'.
  apply andb_true_iff in H' as [Ha _].
  unfold nonspace in Ha. apply negb_true_iff in Ha.
  cbn [append Py.lstrip]. rewrite Ha.
  change (String a (r ++ " ")) with (String a r ++ " ").
  rewrite rstrip_app_space. now apply rstrip_nonspace.
Qed.

Lemma numval_text_codes (u : string) :
  concat_map numval_token u = numval_text (numval_codes u).
Proof.
  induction u as [|a u IH]; [reflexivity|].
  cbn [concat_map numval_codes]. unfold numval_token at 1.
  destruct (numval_code a); cbn [numval_text]; now rewrite IH.
Qed.

Lemma numval_codes_range (u : string) :
  Forall (fun n => 0 <= n <= 26) (numval_codes u).
Proof.
  induction u as [|a u IH]; [constructor|].
  cbn [numval_codes]. unfold numval_code.
  destruct (Py.str_in a letters_upper) eqn:Hu.
  - constructor; [|exact IH].
    pose proof (pos_lt _ _ Hu) as Hlt. rewrite letters_upper_length in Hlt.
    lia.
  - destruct (Ascii.eqb a " "); [constructor; [lia | exact IH] | exact IH].
Qed.

Lemma numval_codes_length (u : string) :
  List.length (numval_codes u)
  = String.length
      (str_filter (fun c => Py.str_in c letters_upper || Ascii.eqb c " ") u).
Proof.
  induction u as [|a u IH]; [reflexivity|].
  cbn [numval_codes str_filter]. unfold numval_code.
  destruct (Py.str_in a letters_upper); cbn [orb].
  - simpl. now rewrite IH.
  - destruct (Ascii.eqb a " "); simpl; now rewrite IH.
Qed.

Lemma isdigit_strip_numval_text (codes : list Z) :
  Forall (fun n => 0 <= n <= 26) codes ->
  Py.split (numval_text codes) = map Py.str codes ->
  Py.isdigit (Py.strip (numval_text codes)) = (List.length codes =? 1)%nat.
Proof.
  intros Hr Hs. destruct codes as [|n [|m rest]].
  - reflexivity.
  - cbn [numval_text List.length Nat.eqb]. rewrite append_empty_r.
    rewrite strip_token by (auto using str_nonempty, str_nonspace).
    apply isdigit_str. inversion Hr; subst. lia.
  - cbn [List.length Nat.eqb].
    destruct (Py.isdigit (Py.strip (numval_text (n :: m :: rest)))) eqn:E;
      [|reflexivity].
    apply isdigit_single_token in E. rewrite split_strip, Hs in E.
    discriminate E.
Qed.

Lemma numval_decrypt_run (fs : string -> option string)
  (rnd : nat -> Z) (t : string) (key : option string) :
  argument_parser fs rnd (namespace "numval" "decrypt" (Some t) key)
  = if Py.isdigit (load fs t)
    then Raise (UsageError "-t/--text input must be a string, not a number")
    else numval (VStr (load fs t)) "decrypt".
Proof.
  unfold argument_parser.
  cbn -[rot subst numval atbash load Py.isdigit Py.int].
  now destruct (Py.isdigit (load fs t)).
Qed.

(** X28. A numeric-value run can be undone by a run, except for
    one-character messages.  When the text is acceptable, encrypt prints one
    line [E]; decrypt of [E] (when [E] is not the name of a file) prints the
    letters and spaces of the loaded text in upper case, unless there is
    exactly one of them: then [E] is a lone number and the run ends with the
    usage error for purely numeric text. *)
Theorem numval_run_round_trip (fs : string -> option string)
  (rnd : nat -> Z) (t : string) :
  Py.isdigit (load fs t) = false ->
  exists E,
    argument_parser fs rnd (namespace "numval" "encrypt" (Some t) None)
    = Ok [E]
    /\ (fs E = None ->
        argument_parser fs rnd (namespace "numval" "decrypt" (Some E) None)
        = if (String.length
                (str_filter letter_or_space (Py.upper (load fs t))) =? 1)%nat
          then Raise (UsageError
                        "-t/--text input must be a string, not a number")
          else Ok [str_filter letter_or_space (Py.upper (load fs t))]).
Proof.
  intros Hd. set (u := Py.upper (load fs t)).
  assert (K : str_filter letter_or_space u
              = str_filter
                  (fun c => Py.str_in c letters_upper || Ascii.eqb c " ") u).
  { apply letter_or_space_upper. }
  exists (concat_map numval_token u). split.
  - rewrite numval_encrypt_run, Hd.
    change (numval (VStr (load fs t)) "encrypt")
      with (r <- numval_logic_enc (VStr (load fs t)) ;; Ok [r]).
    now rewrite numval_logic_enc_eq.
  - intros HE. rewrite numval_decrypt_run.
    unfold load at 1 2. rewrite HE.
    pose proof (split_tokens u) as Hs.
    rewrite numval_text_codes in *.
    rewrite (isdigit_strip_numval_text _ (numval_codes_range u) Hs).
    rewrite K, <- numval_codes_length.
    destruct (List.length (numval_codes u) =? 1)%nat; [reflexivity|].
    change (numval (VStr (Py.strip (numval_text (numval_codes u)))) "decrypt")
      with (r <- (tokens <- mapM Py.int
                              (Py.split
                                 (Py.strip (numval_text (numval_codes u)))) ;;
                  numval_dec_loop tokens EmptyString) ;; Ok [r]).
    rewrite split_strip, Hs, mapM_int_str. cbn [bind].
    now rewrite numval_dec_loop_codes.
Qed.

Lemma numval_run_round_trip_witness :
  Py.isdigit (load (fun _ => None) "Hi there!") = false
  /\ exists E,
       argument_parser (fun _ => None) (fun _ => 0)
         (namespace "numval" "encrypt" (Some "Hi there!") None) = Ok [E]
       /\ ((fun _ : string => @None string) E = None ->
           argument_parser (fun _ => None) (fun _ => 0)
             (namespace "numval" "decrypt" (Some E) None)
           = if (String.length
                   (str_filter letter_or_space
                      (Py.upper (load (fun _ => None) "Hi there!"))) =? 1)%nat
             then Raise (UsageError
                           "-t/--text input must be a string, not a number")
             else Ok [str_filter letter_or_space
                        (Py.upper (load (fun _ => None) "Hi there!"))]).
Proof.
  split; [reflexivity|].
  apply (numval_run_round_trip (fun _ => None) (fun _ => 0) "Hi there!").
  reflexivity.
Defined.
